(** * kensetsu-databank-crawler: the page fetcher, the range crawler and
      the spreadsheet sink of [crawler_by_id.py]

    The development embeds the three functions of [crawler_by_id.py]
    ([crawl_and_extract_data], [crawl_kensetsu_databank_range] and
    [append_or_create_excel]) as executable Rocq functions and proves the
    properties the specification states about them.

    Modelling conventions.
    - A Python [dict] is an insertion-ordered association list without
      repeated keys ([Py.dict_set] overwrites in place, otherwise appends).
    - Exceptions are explicit: a computation ends in [Returned] or in
      [Raised], and a [try]/[except] is a match on that outcome.
    - The environment is explicit and executable: the HTTP server is a
      function from the completion rank and the URL to the outcome of the
      GET, the thread pool is driven by a list of completion events, the
      disk holds the spreadsheet and a list that says which of the coming
      write attempts fail.
    - The libraries are modelled on the part of their domain the program
      is written for: a body that [html.parser] builds a tree from, a
      spreadsheet whose cells are texts. What [pd.read_excel] does to a
      text it takes for a number, a truth value or a missing value, and
      what the writer does with a character it refuses, is not modelled:
      the statements that depend on it carry the hypotheses of
      [Excel.plain] and [Excel.faithful] that keep them inside the domain.
    - The orchestrator's observable actions are recorded in a trace. *)

From stdpp Require Import base list strings.
From Stdlib Require Import ZArith DecimalString DecimalPos DecimalZ.

Set Warnings "-clear-no-such-hyp".

(** ** Exceptions and outcomes *)

(** The exception classes the program meets. The first three are
    subclasses of [requests.exceptions.RequestException]; all of them are
    subclasses of [Exception]. *)
Inductive exn : Type :=
| ConnectionError
| Timeout
| HTTPError
| ValueError
| KeyError
| OSError
| ZeroDivisionError
| RuntimeError.

#[global] Instance exn_eq_dec : EqDecision exn.
Proof. solve_decision. Defined.

Definition is_RequestException (e : exn) : bool :=
  match e with
  | ConnectionError | Timeout | HTTPError => true
  | _ => false
  end.

(** How a call ends. [Raised] keeps the state reached when the exception
    left the call: mutations made before the raise stay. *)
Inductive outcome (A : Type) : Type :=
| Returned (a : A)
| Raised (e : exn) (a : A).
Arguments Returned {A} a.
Arguments Raised {A} e a.

(** A call without state of its own. *)
Inductive result (A : Type) : Type :=
| Ok (a : A)
| Raise (e : exn).
Arguments Ok {A} a.
Arguments Raise {A} e.

(** ** Python primitives *)

Module Py.

(** [str.isspace] on the code points below 256. *)
Definition isspace (c : Ascii.ascii) : bool :=
  let n := Ascii.nat_of_ascii c in
  (((9 <=? n) && (n <=? 13)) || ((28 <=? n) && (n <=? 32))
   || (n =? 133) || (n =? 160))%nat.

Fixpoint lstrip (s : string) : string :=
  match s with
  | EmptyString => EmptyString
  | String c s' => if isspace c then lstrip s' else s
  end.

Fixpoint rstrip (s : string) : string :=
  match s with
  | EmptyString => EmptyString
  | String c s' =>
      match rstrip s' with
      | EmptyString => if isspace c then EmptyString else String c EmptyString
      | r => String c r
      end
  end.

(** [s.strip()] *)
Definition strip (s : string) : string := rstrip (lstrip s).

(** [str(n)] for an [int]. *)
Definition str (n : Z) : string := NilZero.string_of_int (Z.to_int n).

(** A [dict] from [str] to [str], in insertion order. *)
Abbreviation dict := (list (string * string)).

(** [d[k]], [None] for a missing key. *)
Fixpoint dict_get (k : string) (d : dict) : option string :=
  match d with
  | [] => None
  | (k', v') :: d' => if decide (k' = k) then Some v' else dict_get k d'
  end.

(** [d[k] = v]: an existing key keeps its position, a new key goes last. *)
Fixpoint dict_set (k v : string) (d : dict) : dict :=
  match d with
  | [] => [(k, v)]
  | (k', v') :: d' =>
      if decide (k' = k) then (k', v) :: d' else (k', v') :: dict_set k v d'
  end.

Definition keys (d : dict) : list string := d.*1.

(** Truth value of a container: [if d:]. *)
Definition truthy {A} (l : list A) : bool :=
  match l with [] => false | _ => true end.

End Py.

(** ** The parsed document (BeautifulSoup) *)

Module Soup.

(** The tree [html.parser] builds: text nodes and tags, a tag with its
    name, the tokens of its [class] attribute and its children. *)
#[warnings="-register-all"]
Inductive node : Type :=
| NavigableString (s : string)
| Tag (name : string) (class_ : list string) (contents : list node).

(** The nodes below [n], in document order. *)
Fixpoint descendants (n : node) : list node :=
  match n with
  | NavigableString _ => []
  | Tag _ _ cs =>
      (fix below (l : list node) : list node :=
         match l with
         | [] => []
         | c :: l' => c :: descendants c ++ below l'
         end) cs
  end.

Definition is_tag (name : string) (n : node) : bool :=
  match n with
  | Tag name' _ _ => bool_decide (name' = name)
  | NavigableString _ => false
  end.

Definition has_class (cls : string) (n : node) : bool :=
  match n with
  | Tag _ class_ _ => bool_decide (cls ∈ class_)
  | NavigableString _ => false
  end.

(** [n.find_all(name)] *)
Definition find_all (name : string) (n : node) : list node :=
  filter (fun c => is_tag name c = true) (descendants n).

(** [n.find(name)] *)
Definition find (name : string) (n : node) : option node :=
  head (find_all name n).

(** [n.find(name, class_=cls)] *)
Definition find_class (name cls : string) (n : node) : option node :=
  head (filter (fun c => is_tag name c && has_class cls c = true)
               (descendants n)).

Definition string_of (n : node) : string :=
  match n with
  | NavigableString s => s
  | Tag _ _ _ => ""
  end.

(** [n.text]: the strings below [n], concatenated. *)
Definition text (n : node) : string :=
  match n with
  | NavigableString s => s
  | Tag _ _ _ => foldr String.append "" (string_of <$> descendants n)
  end.

End Soup.

(** ** Constants *)

Definition BASE_URL : string :=
  "https://www.kensetsu-databank.co.jp/osirase/detail.php?id=".
Definition EXCEL_FILE : string := "kensetsu_data.xlsx".
Definition TABLE_CLASS : string := "san-two".
Definition LINK_COLUMN : string := "link".

(** ** The page fetcher *)

(** What [requests.get] hands back: the status code and the body, the body
    as the tree the parser builds from it at line 31. A body that the
    parser refuses (bs4 then raises [ParserRejectedMarkup] at line 31,
    which is no [RequestException] and leaves the function) has no tree
    and is not a [Response] of this model. *)
Record Response : Type := {
  status_code : Z;
  content : Soup.node;
}.

(** The outcome of [requests.get(url)]. *)
Inductive get_outcome : Type :=
| GetRaises (e : exn)
| GetReturns (r : Response).

(** [response.raise_for_status()]: an [HTTPError] for the 4xx and 5xx
    codes. *)
Definition raise_for_status (r : Response) : result unit :=
  if ((400 <=? status_code r) && (status_code r <? 600))%Z
  then Raise HTTPError else Ok tt.

(** One pass of the loop over the rows: lines 40-45. *)
Definition extract_row (data : Py.dict) (row : Soup.node) : Py.dict :=
  match Soup.find "th" row, Soup.find "td" row with
  | Some th, Some td =>
      let key := Py.strip (Soup.text th) in
      let value := Py.strip (Soup.text td) in
      Py.dict_set key value data
  | _, _ => data
  end.

(** Lines 34-51, on a response that passed [raise_for_status]. *)
Definition extract_data (url : string) (soup : Soup.node) : Py.dict :=
  let table := Soup.find_class "table" TABLE_CLASS soup in
  let data :=
    match table with
    | Some table => foldl extract_row [] (Soup.find_all "tr" table)
    | None => []
    end in
  if Py.truthy data then Py.dict_set LINK_COLUMN url data else data.

(** [crawl_and_extract_data(url)], given what the GET of [url] does.
    [Ok None] is the [return None] of the handler; an exception that is
    not a [RequestException] leaves the function. *)
Definition crawl_and_extract_data
    (get : string -> get_outcome) (url : string) : result (option Py.dict) :=
  match get url with
  | GetRaises e => if is_RequestException e then Ok None else Raise e
  | GetReturns response =>
      match raise_for_status response with
      | Raise e => if is_RequestException e then Ok None else Raise e
      | Ok _ => Ok (Some (extract_data url (content response)))
      end
  end.

(** ** Tables (pandas) *)

Module Pandas.

(** A table: its column labels in order and its rows. A row is kept as
    the mapping it was built from; the cell of row [r] in column [c] is
    [Py.dict_get c r], and [None] is a missing cell (NaN). *)
Record DataFrame : Type := {
  columns : list string;
  rows : list Py.dict;
}.

(** Every cell of every row lies in a column of the table. *)
Definition well_formed (df : DataFrame) : Prop :=
  Forall (fun r => Py.keys r ⊆ columns df) (rows df).

(** The labels of [new] not yet in [cols], added in their order. *)
Definition add_columns (cols new : list string) : list string :=
  foldl (fun (acc : list string) (c : string) =>
           if decide (c ∈ acc) then acc else acc ++ [c]) cols new.

(** [pd.DataFrame(data)] for a list of dicts: the columns are the keys
    in first-seen order. *)
Definition of_records (data : list Py.dict) : DataFrame :=
  {| columns := foldl (fun acc r => add_columns acc (Py.keys r)) [] data;
     rows := data |}.

(** [pd.concat([a, b])] *)
Definition concat (a b : DataFrame) : DataFrame :=
  {| columns := add_columns (columns a) (columns b);
     rows := rows a ++ rows b |}.

(** [df.empty]: no row or no column. *)
Definition empty (df : DataFrame) : bool :=
  negb (Py.truthy (rows df)) || negb (Py.truthy (columns df)).

(** Rows whose cell in column [c] does not occur again further down;
    two missing cells count as equal. *)
Fixpoint keep_last (c : string) (l : list Py.dict) : list Py.dict :=
  match l with
  | [] => []
  | r :: l' =>
      if decide (Py.dict_get c r ∈ (Py.dict_get c <$> l'))
      then keep_last c l'
      else r :: keep_last c l'
  end.

(** [df.drop_duplicates(subset=[c], keep="last", inplace=True)]: nothing
    to do on an empty table, [KeyError] for an unknown column. *)
Definition drop_duplicates (c : string) (df : DataFrame) : result DataFrame :=
  if empty df then Ok df
  else if decide (c ∈ columns df)
       then Ok {| columns := columns df; rows := keep_last c (rows df) |}
       else Raise KeyError.

End Pandas.

(** ** The spreadsheet sink *)

(** The disk: the table stored under [EXCEL_FILE], if the file exists, and
    for each coming write attempt whether it fails.

    [file] is the table [pd.read_excel] gives for the file. A write that
    succeeds puts there the table it was given: this is what the next
    read gives for a table of [Excel.faithful], whose texts the reader
    hands back as they were written, and the statements that send a
    table through the file and read it again are made for such tables
    only.

    A failing attempt ([true]) is the refusal to open the file for
    writing: it raises [OSError] and leaves the file as it was. The
    writer can fail in other ways, with another exception and a file
    written in part (on a control character in a cell, which it
    refuses; a plain text has none); what is stated of a run in which a
    call of the sink fails depends neither on the exception the call
    raises nor on what it leaves of the file, and what is stated of the
    content of the file after a run assumes that no write fails. *)
Record Disk : Type := {
  file : option Pandas.DataFrame;
  faults : list bool;
}.

(** [df.to_excel(EXCEL_FILE, index=False)]: an attempt the disk refuses
    raises and leaves the file, one it accepts puts the table there. *)
Definition to_excel (df : Pandas.DataFrame) (d : Disk) : outcome Disk :=
  match faults d with
  | true :: fs => Raised OSError {| file := file d; faults := fs |}
  | false :: fs => Returned {| file := Some df; faults := fs |}
  | [] => Returned {| file := Some df; faults := [] |}
  end.

(** [append_or_create_excel(data, append_to_existing)]; the table of
    [file] is what [pd.read_excel(EXCEL_FILE)] returns at line 124. *)
Definition append_or_create_excel
    (data : list Py.dict) (append_to_existing : bool) (d : Disk) : outcome Disk :=
  match append_to_existing, file d with
  | true, Some existing_df =>
      let new_df := Pandas.of_records data in
      let combined_df := Pandas.concat existing_df new_df in
      match Pandas.drop_duplicates LINK_COLUMN combined_df with
      | Raise e => Raised e d
      | Ok combined_df => to_excel combined_df d
      end
  | _, _ => to_excel (Pandas.of_records data) d
  end.

(** ** The thread pool *)

(** What a future holds once its task is done. *)
Abbreviation fetched := (result (option Py.dict)).

(** The pool after the submissions: the URL of each task, the future of
    each task ([None] while the task is not done), the completion events
    still to come (the index of the task that finishes next) and the number
    of events so far. *)
Record Pool : Type := {
  tasks : list string;
  futures : list (option fetched);
  pending : list nat;
  clock : nat;
}.

(** The observable actions of the orchestrator. *)
Inductive event : Type :=
| EvAppend (record : Py.dict)
| EvFailure (url : string)
| EvFlush (batch : list Py.dict) (raised : option exn)
| EvProgress (done : nat) (total_ids : Z) (url : string) (cache_size : nat)
| EvErrorInThread (e : exn).

(** The variables of [crawl_kensetsu_databank_range] and what it acts on. *)
Record Crawler : Type := {
  all_data : list Py.dict;
  error_links : list string;
  disk : Disk;
  pool : Pool;
  trace : list event;
}.

Definition set_all_data (l : list Py.dict) (st : Crawler) : Crawler :=
  {| all_data := l; error_links := error_links st; disk := disk st;
     pool := pool st; trace := trace st |}.
Definition set_error_links (l : list string) (st : Crawler) : Crawler :=
  {| all_data := all_data st; error_links := l; disk := disk st;
     pool := pool st; trace := trace st |}.
Definition set_disk (d : Disk) (st : Crawler) : Crawler :=
  {| all_data := all_data st; error_links := error_links st; disk := d;
     pool := pool st; trace := trace st |}.
Definition set_pool (p : Pool) (st : Crawler) : Crawler :=
  {| all_data := all_data st; error_links := error_links st; disk := disk st;
     pool := p; trace := trace st |}.
Definition log (ev : event) (st : Crawler) : Crawler :=
  {| all_data := all_data st; error_links := error_links st; disk := disk st;
     pool := pool st; trace := trace st ++ [ev] |}.

(** [ThreadPoolExecutor(max_workers=num_threads)] refuses a worker count
    that is not positive. *)
Definition ThreadPoolExecutor (num_threads : Z) : result unit :=
  if (num_threads <=? 0)%Z then Raise ValueError else Ok tt.

(** [range(start_id, end_id + 1)] *)
Definition id_range (start_id end_id : Z) : list Z :=
  (fun k => (start_id + Z.of_nat k)%Z) <$> seq 0 (Z.to_nat (end_id - start_id + 1)).

Section Crawl.

(** The server: the outcome of the GET of a URL that completes as the
    [n]-th of the run. *)
Variable http : nat -> string -> get_outcome.

(** The futures of line 77, none of them done, and the order in which
    the workers will finish. *)
Definition submit (urls : list string) (schedule : list nat) : Pool :=
  {| tasks := urls; futures := replicate (length urls) None;
     pending := schedule; clock := 0 |}.

(** Task [j] finishes: its future receives what
    [crawl_and_extract_data] returned or raised. An event for a task
    that is done or does not exist only advances the clock. *)
Definition complete (j : nat) (p : Pool) : Pool :=
  match futures p !! j, tasks p !! j with
  | Some None, Some url =>
      {| tasks := tasks p;
         futures := <[j := Some (crawl_and_extract_data (http (clock p)) url)]> (futures p);
         pending := pending p; clock := S (clock p) |}
  | _, _ =>
      {| tasks := tasks p; futures := futures p;
         pending := pending p; clock := S (clock p) |}
  end.

(** Block until future [i] is done, letting the workers finish in the
    order of [evs]. [None]: the future never completes. *)
Fixpoint await (i : nat) (evs : list nat) (p : Pool) : option (fetched * Pool) :=
  match futures p !! i with
  | Some (Some r) =>
      Some (r, {| tasks := tasks p; futures := futures p;
                  pending := evs; clock := clock p |})
  | _ =>
      match evs with
      | [] => None
      | j :: evs' => await i evs' (complete j p)
      end
  end.

(** [future.result()] for the future of index [i]. *)
Definition future_result (i : nat) (p : Pool) : option (fetched * Pool) :=
  await i (pending p) p.

Variables (start_id end_id : Z) (append_to_existing : bool).

Definition batch_size : nat := 32.
Definition total_ids : Z := (end_id - start_id + 1)%Z.

(** [base_url + str(start_id + i)] *)
Definition url_of (i : nat) : string :=
  BASE_URL +:+ Py.str (start_id + Z.of_nat i).

(** Lines 83-86. *)
Definition record_result (i : nat) (extracted_data : option Py.dict)
    (st : Crawler) : Crawler :=
  match extracted_data with
  | Some ((_ :: _) as record) =>
      log (EvAppend record) (set_all_data (all_data st ++ [record]) st)
  | _ =>
      log (EvFailure (url_of i)) (set_error_links (error_links st ++ [url_of i]) st)
  end.

(** Lines 89-91. *)
Definition flush_batch (st : Crawler) : outcome Crawler :=
  if batch_size <=? length (all_data st) then
    match append_or_create_excel (all_data st) append_to_existing (disk st) with
    | Returned d =>
        Returned (set_all_data [] (log (EvFlush (all_data st) None) (set_disk d st)))
    | Raised e d =>
        Raised e (log (EvFlush (all_data st) (Some e)) (set_disk d st))
    end
  else Returned st.

(** Lines 94-95: the division by [total_ids], then the print. *)
Definition report_progress (i : nat) (st : Crawler) : outcome Crawler :=
  if (total_ids =? 0)%Z then Raised ZeroDivisionError st
  else Returned (log (EvProgress (i + 1) total_ids (url_of i) (length (all_data st))) st).

(** Lines 82-95, the body of the [try], once [future.result()] has
    returned or raised [res]. *)
Definition try_body (i : nat) (res : fetched) (st : Crawler) : outcome Crawler :=
  match res with
  | Raise e => Raised e st
  | Ok extracted_data =>
      match flush_batch (record_result i extracted_data st) with
      | Raised e st' => Raised e st'
      | Returned st' => report_progress i st'
      end
  end.

(** Lines 81-107: the [try] with its handler [except Exception]. *)
Definition handle_result (i : nat) (res : fetched) (st : Crawler) : Crawler :=
  match try_body i res st with
  | Returned st' => st'
  | Raised e st' => log (EvErrorInThread e) st'
  end.

(** One pass of the loop of line 80. *)
Definition iteration (i : nat) (st : Crawler) : option Crawler :=
  match future_result i (pool st) with
  | None => None
  | Some (res, p) => Some (handle_result i res (set_pool p st))
  end.

(** The loop of line 80 over the futures of the given indices. *)
Fixpoint loop (indices : list nat) (st : Crawler) : option Crawler :=
  match indices with
  | [] => Some st
  | i :: indices' =>
      match iteration i st with
      | None => None
      | Some st' => loop indices' st'
      end
  end.

(** Lines 110-111. *)
Definition final_flush (st : Crawler) : outcome Crawler :=
  if Py.truthy (all_data st) then
    match append_or_create_excel (all_data st) append_to_existing (disk st) with
    | Returned d => Returned (log (EvFlush (all_data st) None) (set_disk d st))
    | Raised e d => Raised e (log (EvFlush (all_data st) (Some e)) (set_disk d st))
    end
  else Returned st.

(** The state at line 75, before the pool exists. *)
Definition initial (d : Disk) : Crawler :=
  {| all_data := []; error_links := []; disk := d;
     pool := submit [] []; trace := [] |}.

(** Lines 77-107, the block under [with]: the submissions, then the
    loop over the futures. *)
Definition pool_block (schedule : list nat) (d : Disk) : option Crawler :=
  let urls := (fun id => BASE_URL +:+ Py.str id) <$> id_range start_id end_id in
  loop (seq 0 (length urls)) (set_pool (submit urls schedule) (initial d)).

(** [crawl_kensetsu_databank_range(start_id, end_id, append_to_existing,
    num_threads)] on disk [d], the workers finishing in the order
    [schedule]. [None]: the run blocks for ever on a future. *)
Definition crawl_kensetsu_databank_range
    (num_threads : Z) (schedule : list nat) (d : Disk) : option (outcome Crawler) :=
  match ThreadPoolExecutor num_threads with
  | Raise e => Some (Raised e (initial d))
  | Ok _ =>
      match pool_block schedule d with
      | None => None
      | Some st => Some (final_flush st)
      end
  end.

End Crawl.

(** ** The script *)

(** How the script of lines 137-146 ends: with the usage message and
    exit status 1, with the [ValueError] of [int] on an argument that is
    no integer, or with what [crawl_kensetsu_databank_range] did. The
    first two leave the disk as it was. *)
Inductive script_outcome : Type :=
| Usage (d : Disk)
| BadArgument (d : Disk)
| Ran (out : outcome Crawler).

Definition disk_after (o : script_outcome) : Disk :=
  match o with
  | Usage d | BadArgument d => d
  | Ran out => disk (match out with Returned st | Raised _ st => st end)
  end.

Section Script.

(** [int(s)] of Python, [None] for its [ValueError]. *)
Variable int_of : string -> option Z.
Variable http : nat -> string -> get_outcome.

(** [sys.argv[3]] read as the worker count, 1 when it is absent. *)
Definition threads_argument (argv : list string) : option Z :=
  if length argv =? 4 then argv !! 3 ≫= int_of else Some 1%Z.

(** Lines 138-146, [argv] being [sys.argv]. *)
Definition script (argv : list string) (schedule : list nat) (d : Disk)
    : option script_outcome :=
  if (length argv <? 3) || (4 <? length argv) then Some (Usage d)
  else
    match argv !! 1 ≫= int_of with
    | None => Some (BadArgument d)
    | Some start_id =>
        match argv !! 2 ≫= int_of with
        | None => Some (BadArgument d)
        | Some end_id =>
            match threads_argument argv with
            | None => Some (BadArgument d)
            | Some num_threads =>
                Ran <$> crawl_kensetsu_databank_range
                          http start_id end_id true num_threads schedule d
            end
        end
    end.

End Script.

(** ** Notions the statements use *)

(** Assigning a list of pairs to a dict, in order. *)
Definition assign (d : Py.dict) (pairs : list (string * string)) : Py.dict :=
  foldl (fun d p => Py.dict_set p.1 p.2 d) d pairs.

(** The header/data pair of a row: the trimmed text of its first header
    cell and of its first data cell, when it has both. *)
Definition row_pair (row : Soup.node) : option (string * string) :=
  match Soup.find "th" row, Soup.find "td" row with
  | Some th, Some td => Some (Py.strip (Soup.text th), Py.strip (Soup.text td))
  | _, _ => None
  end.

(** The header/data pairs a table holds, in row order. *)
Definition table_pairs (table : Soup.node) : list (string * string) :=
  omap row_pair (Soup.find_all "tr" table).

(** The [link] cell of a row, [None] when it is missing. *)
Definition link_of (r : Py.dict) : option string := Py.dict_get LINK_COLUMN r.

Definition has_link (r : Py.dict) : Prop := is_Some (link_of r).

(** The rows on the disk, none when the file does not exist. *)
Definition existing_rows (d : Disk) : list Py.dict :=
  match file d with Some t => Pandas.rows t | None => [] end.


(** The records appended to the batch, in the order of the appends. *)
Definition appended (t : list event) : list Py.dict :=
  omap (fun ev => match ev with EvAppend r => Some r | _ => None end) t.

(** The calls of the sink: the batch handed over and how the call ended. *)
Definition flushes (t : list event) : list (list Py.dict * option exn) :=
  omap (fun ev => match ev with EvFlush b r => Some (b, r) | _ => None end) t.

(** The batches of the calls of the sink that returned. *)
Definition persisted (t : list event) : list (list Py.dict) :=
  omap (fun ev => match ev with EvFlush b None => Some b | _ => None end) t.

(** The records appended so far are those of the flushes that returned,
    followed by the batch in memory. *)
Definition accounted (st : Crawler) : Prop :=
  appended (trace st) = concat (persisted (trace st)) ++ all_data st.

(** The errors the handler of line 106 has logged. *)
Definition logged (t : list event) : list exn :=
  omap (fun ev => match ev with EvErrorInThread e => Some e | _ => None end) t.

(** The disk does not fail and the batch in memory can be merged. *)
Definition healthy (st : Crawler) : Prop :=
  faults (disk st) = [] ∧ Forall has_link (all_data st).

(** The record a future contributes to the batch, if any. *)
Definition record_of (res : fetched) : option Py.dict :=
  match res with
  | Ok (Some ((_ :: _) as record)) => Some record
  | _ => None
  end.

Definition state_of {A} (o : outcome A) : A :=
  match o with Returned a | Raised _ a => a end.

Definition outcome_map {A B} (f : A -> B) (o : outcome A) : outcome B :=
  match o with
  | Returned a => Returned (f a)
  | Raised e a => Raised e (f a)
  end.

(** The position of the first event of task [i] in a list of completion
    events. *)
Fixpoint rank (i : nat) (evs : list nat) : nat :=
  match evs with
  | [] => 0
  | j :: evs' => if decide (j = i) then 0 else S (rank i evs')
  end.

(** What the future of task [i] holds once the task is done, under a
    schedule: the fetch of its URL, completed at the rank of the task. *)
Definition settled (http : nat -> string -> get_outcome) (start_id : Z)
    (schedule : list nat) (i : nat) : fetched :=
  crawl_and_extract_data (http (rank i schedule)) (url_of start_id i).

(** The futures after the completion events [done]. *)
Definition futures_after (http : nat -> string -> get_outcome)
    (urls : list string) (done : list nat) : list (option fetched) :=
  imap (fun i url =>
          if decide (i ∈ done)
          then Some (crawl_and_extract_data (http (rank i done)) url)
          else None) urls.

(** The pool of the tasks [urls] after the completion events [done]. *)
Definition pool_after (http : nat -> string -> get_outcome) (urls : list string)
    (done : list nat) (p : Pool) : Prop :=
  clock p = length done ∧ tasks p = urls ∧ futures p = futures_after http urls done.

(** The loop of line 80 on futures that are done: the bodies in
    submission order, from index [i] on. *)
Fixpoint process (start_id end_id : Z) (append_to_existing : bool)
    (i : nat) (results : list fetched) (st : Crawler) : Crawler :=
  match results with
  | [] => st
  | res :: results' =>
      process start_id end_id append_to_existing (S i) results'
              (handle_result start_id end_id append_to_existing i res st)
  end.

(** The batches the loop flushes when no flush fails, and the batch left
    at the end: append, flush and clear at the threshold. *)
Fixpoint accumulate (batch records : list Py.dict)
    : list (list Py.dict) * list Py.dict :=
  match records with
  | [] => ([], batch)
  | r :: records' =>
      if batch_size <=? length (batch ++ [r])
      then let '(flushed, rest) := accumulate [] records' in
           ((batch ++ [r]) :: flushed, rest)
      else accumulate (batch ++ [r]) records'
  end.

(** Whether a string begins, or ends, with a character [str.strip]
    removes. *)
Definition starts_with_space (s : string) : bool :=
  match s with
  | EmptyString => false
  | String c _ => Py.isspace c
  end.

Fixpoint ends_with_space (s : string) : bool :=
  match s with
  | EmptyString => false
  | String c EmptyString => Py.isspace c
  | String _ s' => ends_with_space s'
  end.

Definition trimmed (s : string) : Prop :=
  starts_with_space s = false ∧ ends_with_space s = false.

(** *** Texts that go through the spreadsheet unchanged *)

Module Excel.

Fixpoint all_chars (p : Ascii.ascii -> bool) (s : string) : bool :=
  match s with
  | EmptyString => true
  | String c s' => p c && all_chars p s'
  end.

Definition letter (c : Ascii.ascii) : bool :=
  let n := Ascii.nat_of_ascii c in
  (((65 <=? n) && (n <=? 90)) || ((97 <=? n) && (n <=? 122)))%nat.

Definition digit (c : Ascii.ascii) : bool :=
  let n := Ascii.nat_of_ascii c in ((48 <=? n) && (n <=? 57))%nat.

(** The space and the marks [& - . / : = ?]. *)
Definition mark (c : Ascii.ascii) : bool :=
  bool_decide (Ascii.nat_of_ascii c ∈ [32; 38; 45; 46; 47; 58; 61; 63]).

Definition lower (c : Ascii.ascii) : Ascii.ascii :=
  let n := Ascii.nat_of_ascii c in
  if ((65 <=? n) && (n <=? 90))%nat then Ascii.ascii_of_nat (n + 32) else c.

Fixpoint lowercase (s : string) : string :=
  match s with
  | EmptyString => EmptyString
  | String c s' => String (lower c) (lowercase s')
  end.

(** The words beginning with a letter that [pd.read_excel] does not give
    back as text, in lower case: its markers of a missing value, the
    truth values, and the words [float] reads. *)
Definition reserved : list string :=
  ["na"; "n/a"; "nan"; "null"; "none"; "true"; "false"; "inf"; "infinity"].

(** A text that comes back from the file as the text it was, whatever
    else its column holds: it begins with a letter, is made of letters,
    digits, spaces and the marks above, does not end with a space, is not
    a reserved word in any case of its letters, and has at most 255
    characters. The writer stores such a text as it is (it is no formula
    and no error code, has no character the writer refuses or escapes,
    and is not cut to the size of a cell); the reader finds no number,
    truth value or missing value in it, and since it converts a column
    only when it can convert every cell of it, the column of the cell
    keeps its texts. The URLs of the program are of this kind. *)
Definition plain (s : string) : bool :=
  match s with
  | EmptyString => false
  | String c _ =>
      letter c
      && all_chars (fun c => letter c || digit c || mark c) s
      && negb (ends_with_space s)
      && negb (bool_decide (lowercase s ∈ reserved))
      && (String.length s <=? 255)%nat
  end.

(** A record whose field names and values are plain. *)
Definition plain_record (r : Py.dict) : Prop :=
  Forall (fun p => plain p.1 = true ∧ plain p.2 = true) r.

(** A table that [pd.read_excel] gives back as it was written: distinct
    plain column labels, and rows that have at least one cell, have their
    cells in columns of the table, and hold plain texts. *)
Definition faithful (t : Pandas.DataFrame) : Prop :=
  NoDup (Pandas.columns t) ∧
  Forall (fun c => plain c = true) (Pandas.columns t) ∧
  Forall (fun r => r ≠ [] ∧ Py.keys r ⊆ Pandas.columns t ∧ plain_record r)
         (Pandas.rows t).

#[global] Instance plain_record_dec r : Decision (plain_record r).
Proof. unfold plain_record. apply _. Defined.

#[global] Instance faithful_dec t : Decision (faithful t).
Proof. unfold faithful. apply _. Defined.

End Excel.

(** The table on the disk, if there is one, is faithful. *)
Definition faithful_disk (d : Disk) : Prop :=
  match file d with Some t => Excel.faithful t | None => True end.

(** The records the pages of the range give all satisfy [P], at whatever
    rank their requests complete. *)
Definition serves (P : Py.dict -> Prop) (http : nat -> string -> get_outcome)
    (start_id end_id : Z) : Prop :=
  forall n i record,
    i < Z.to_nat (end_id - start_id + 1) ->
    crawl_and_extract_data (http n) (url_of start_id i) = Ok (Some record) ->
    P record.

(** The URL a future sends to the failure list, if any: lines 85-86. *)
Definition failure_of (url : string) (res : fetched) : option string :=
  match res with
  | Ok None | Ok (Some []) => Some url
  | _ => None
  end.

(** The link values on the disk. *)
Definition links_on (d : Disk) : list (option string) :=
  link_of <$> existing_rows d.

(** The exception a call ended in, if any. *)
Definition raised_of {A} (o : outcome A) : option exn :=
  match o with
  | Returned _ => None
  | Raised e _ => Some e
  end.

(** The batches among the calls of the sink that returned. *)
Definition returned_calls (calls : list (list Py.dict * option exn)) : list (list Py.dict) :=
  omap (fun call => match call.2 with None => Some call.1 | Some _ => None end) calls.

(** The disk holds the batches [batches], end to end, and no file when
    there is none. *)
Definition stored (d : Disk) (batches : list (list Py.dict)) : Prop :=
  match file d with
  | None => batches = []
  | Some t => Pandas.rows t = concat batches
  end.

(** What holds before the pass of index [k] in a run that appends to a
    disk that was empty: the appended records are on the disk or in
    memory, all have their link, and their links are the URLs of distinct
    identifiers below [k]. *)
Definition fresh_inv (start_id : Z) (k : nat) (st : Crawler) : Prop :=
  accounted st ∧
  stored (disk st) (persisted (trace st)) ∧
  Forall has_link (all_data st) ∧
  NoDup (link_of <$> appended (trace st)) ∧
  Forall (fun r => exists j, j < k ∧ link_of r = Some (url_of start_id j))
         (appended (trace st)).

(** The orchestrator without its pool. *)
Definition forget_pool (st : Crawler) : Crawler := set_pool (submit [] []) st.

(** Where a logged error can come from: a call of the sink that raised
    it, recorded in the trace, or a fetch that raised it. *)
Definition error_origin (http : nat -> string -> get_outcome)
    (t : list event) (e : exn) : Prop :=
  (exists batch, (batch, Some e) ∈ flushes t) ∨
  (exists n url, crawl_and_extract_data (http n) url = Raise e).

(** ** Sample pages and servers *)

Module Sample.

Definition cell (tag txt : string) : Soup.node :=
  Soup.Tag tag [] [Soup.NavigableString txt].

(** [<tr><th>k</th><td>v</td></tr>] *)
Definition tr (k v : string) : Soup.node :=
  Soup.Tag "tr" [] [cell "th" k; cell "td" v].

Definition table (trs : list Soup.node) : Soup.node :=
  Soup.Tag "table" [TABLE_CLASS] trs.

Definition heading : Soup.node :=
  Soup.Tag "div" ["top-h1-style"] [Soup.Tag "h1" [] [Soup.NavigableString "Sample Title"]].

(** The document of the repository's test, with the given rows. *)
Definition page (trs : list Soup.node) : Soup.node :=
  Soup.Tag "[document]" [] [heading; table trs].

(** A document without the table. *)
Definition bare_page : Soup.node := Soup.Tag "[document]" [] [heading].

Definition ok (soup : Soup.node) : Response :=
  {| status_code := 200; content := soup |}.

Definition url : string := "https://www.example.com/sample_page".

Definition two_rows : list Soup.node :=
  [tr " Key 1 " "Value 1"; tr "Key 2" "Value 2 "].

(** A table one of whose headers reads [link]. *)
Definition link_rows : list Soup.node :=
  [tr "Key 1" "Value 1"; tr "link" "elsewhere"].

(** A server on which the request that completes first times out and
    every other request gets the page of two rows. *)
Definition server (n : nat) (_ : string) : get_outcome :=
  match n with
  | 0 => GetRaises Timeout
  | _ => GetReturns (ok (page two_rows))
  end.

(** A server on which every request gets the page of two rows. *)
Definition steady (_ : nat) (_ : string) : get_outcome :=
  GetReturns (ok (page two_rows)).

(** A disk without the file, on which the first write fails. *)
Definition failing : Disk := {| file := None; faults := [true] |}.

Definition record : Py.dict := [("Key 1", "Value 1"); ("link", "u")].

(** The orchestrator with 31 records in its batch, on the failing disk. *)
Definition nearly_full : Crawler :=
  set_all_data (replicate 31 record) (initial failing).

(** An [int] that knows a few numerals. *)
Definition int_of (s : string) : option Z :=
  if decide (s = "100") then Some 100%Z
  else if decide (s = "102") then Some 102%Z
  else if decide (s = "2") then Some 2%Z
  else if decide (s = "0") then Some 0%Z
  else None.

(** A batch in which two records share their link. *)
Definition batch : list Py.dict :=
  [[("a", "1"); ("link", "u1")]; [("a", "2"); ("link", "u2")];
   [("a", "3"); ("link", "u1")]].

(** A disk without the file, on which no write fails. *)
Definition fresh : Disk := {| file := None; faults := [] |}.

(** A disk with a table of one row. *)
Definition used : Disk :=
  {| file := Some {| Pandas.columns := ["a"; "link"];
                     Pandas.rows := [[("a", "0"); ("link", "u1")]] |};
     faults := [] |}.

(** A batch of plain texts in which two records share their link. *)
Definition plain_batch : list Py.dict :=
  [[("a", "x1"); ("link", "u1")]; [("a", "x2"); ("link", "u2")];
   [("a", "x3"); ("link", "u1")]].

(** A disk with a faithful table of two rows. *)
Definition kept : Disk :=
  {| file := Some {| Pandas.columns := ["a"; "link"];
                     Pandas.rows := [[("a", "x0"); ("link", "u1")];
                                     [("a", "y0"); ("link", "u0")]] |};
     faults := [] |}.

End Sample.

(** * Properties *)

(** ** Dictionaries *)

Section DictFacts.
Implicit Types (d : Py.dict) (k v : string).

Lemma dict_get_set_eq k v d : Py.dict_get k (Py.dict_set k v d) = Some v.
Proof.
  induction d as [|[k' v'] d IH]; simpl.
  - by rewrite decide_True.
  - destruct (decide (k' = k)) as [->|Hne]; simpl.
    + by rewrite decide_True.
    + by rewrite decide_False.
Qed.

Lemma dict_get_set_ne k k' v d :
  k ≠ k' -> Py.dict_get k' (Py.dict_set k v d) = Py.dict_get k' d.
Proof.
  intros Hne. induction d as [|[k0 v0] d IH]; simpl.
  - by rewrite decide_False.
  - destruct (decide (k0 = k)) as [->|Hk0]; simpl.
    + by rewrite !decide_False.
    + by rewrite IH.
Qed.

Lemma dict_get_app k d1 d2 :
  Py.dict_get k (d1 ++ d2) =
  match Py.dict_get k d1 with Some v => Some v | None => Py.dict_get k d2 end.
Proof.
  induction d1 as [|[k' v'] d1 IH]; simpl; [done|].
  by destruct (decide (k' = k)).
Qed.

Lemma dict_get_None k d : Py.dict_get k d = None <-> k ∉ Py.keys d.
Proof.
  unfold Py.keys. induction d as [|[k' v'] d IH]; simpl.
  - split; [intros _; apply not_elem_of_nil | done].
  - rewrite not_elem_of_cons. destruct (decide (k' = k)) as [->|Hne].
    + split; [done | intros [? _]; done].
    + rewrite IH. naive_solver.
Qed.

Lemma dict_get_is_Some k d : is_Some (Py.dict_get k d) <-> k ∈ Py.keys d.
Proof.
  rewrite <-not_eq_None_Some, dict_get_None.
  destruct (decide (k ∈ Py.keys d)); naive_solver.
Qed.

Lemma keys_dict_set k v d k' :
  k' ∈ Py.keys (Py.dict_set k v d) <-> k' = k ∨ k' ∈ Py.keys d.
Proof.
  rewrite <-!dict_get_is_Some. destruct (decide (k = k')) as [->|Hne].
  - rewrite dict_get_set_eq. naive_solver.
  - rewrite dict_get_set_ne by done. naive_solver.
Qed.

Lemma dict_set_fresh k v d :
  k ∉ Py.keys d -> Py.dict_set k v d = d ++ [(k, v)].
Proof.
  unfold Py.keys. induction d as [|[k' v'] d IH]; simpl; [done|].
  rewrite not_elem_of_cons. intros [Hne Hd].
  rewrite decide_False by done. by rewrite IH.
Qed.

Lemma dict_set_NoDup k v d :
  NoDup (Py.keys d) -> NoDup (Py.keys (Py.dict_set k v d)).
Proof.
  unfold Py.keys. induction d as [|[k' v'] d IH]; simpl.
  - intros _. apply NoDup_singleton.
  - rewrite NoDup_cons. intros [Hk' Hd].
    destruct (decide (k' = k)) as [->|Hne]; simpl.
    + by apply NoDup_cons.
    + apply NoDup_cons. split; [|by apply IH].
      intros Hin. apply (keys_dict_set k v d k') in Hin as [?|?]; done.
Qed.

Lemma dict_set_truthy k v d : Py.truthy (Py.dict_set k v d) = true.
Proof. destruct d as [|[k' v'] d]; simpl; [done|]. by destruct (decide (k' = k)). Qed.

(** After the assignments a key holds the value of its last pair. *)
Lemma dict_get_assign k d pairs :
  Py.dict_get k (assign d pairs) =
  match Py.dict_get k (reverse pairs) with
  | Some v => Some v
  | None => Py.dict_get k d
  end.
Proof.
  revert d. induction pairs as [|[k' v'] pairs IH]; intros d; [done|].
  rewrite reverse_cons, dict_get_app. unfold assign in *. simpl. rewrite IH.
  destruct (Py.dict_get k (reverse pairs)); [done|].
  destruct (decide (k' = k)) as [->|Hne].
  - apply dict_get_set_eq.
  - by apply dict_get_set_ne.
Qed.

Lemma keys_assign k d pairs :
  k ∈ Py.keys (assign d pairs) <-> k ∈ pairs.*1 ∨ k ∈ Py.keys d.
Proof.
  revert d. induction pairs as [|[k' v'] pairs IH]; intros d; simpl.
  - rewrite elem_of_nil. naive_solver.
  - unfold assign in *. simpl. rewrite IH, keys_dict_set, elem_of_cons. naive_solver.
Qed.

Lemma assign_NoDup d pairs :
  NoDup (Py.keys d) -> NoDup (Py.keys (assign d pairs)).
Proof.
  revert d. induction pairs as [|[k' v'] pairs IH]; intros d Hd; [done|].
  unfold assign in *. simpl. by apply IH, dict_set_NoDup.
Qed.

Lemma assign_truthy d pairs :
  pairs ≠ [] -> Py.truthy (assign d pairs) = true.
Proof.
  intros Hp. destruct (assign d pairs) as [|p l] eqn:E; [|done].
  destruct pairs as [|[k' v'] pairs]; [done|].
  assert (k' ∈ Py.keys (assign d ((k', v') :: pairs))) as Hin.
  { apply keys_assign. left. simpl. apply elem_of_cons. by left. }
  rewrite E in Hin. by apply elem_of_nil in Hin.
Qed.

(** Distinct fresh keys are appended in order. *)
Lemma assign_fresh d pairs :
  NoDup pairs.*1 -> (forall k, k ∈ pairs.*1 -> k ∉ Py.keys d) ->
  assign d pairs = d ++ pairs.
Proof.
  revert d. induction pairs as [|[k' v'] pairs IH]; intros d Hnd Hfresh.
  - by rewrite app_nil_r.
  - simpl in Hnd. apply NoDup_cons in Hnd as [Hk' Hnd].
    unfold assign in *. simpl.
    rewrite dict_set_fresh by (apply Hfresh; simpl; apply elem_of_cons; by left).
    rewrite IH; [by rewrite <-app_assoc | done |].
    intros k Hk. unfold Py.keys. rewrite fmap_app, elem_of_app. simpl.
    intros [Hin|Hin].
    + revert Hin. apply Hfresh. simpl. apply elem_of_cons. by right.
    + apply list_elem_of_singleton in Hin as ->. done.
Qed.

End DictFacts.

(** ** The page fetcher *)

Lemma extract_row_pair data row :
  extract_row data row =
  match row_pair row with Some p => Py.dict_set p.1 p.2 data | None => data end.
Proof.
  unfold extract_row, row_pair.
  destruct (Soup.find "th" row), (Soup.find "td" row); done.
Qed.

Lemma extract_rows_assign data rows :
  foldl extract_row data rows = assign data (omap row_pair rows).
Proof.
  revert data. induction rows as [|row rows IH]; intros data; [done|].
  simpl. rewrite IH, extract_row_pair.
  destruct (row_pair row) as [p|]; done.
Qed.

(** What lines 34-51 compute on a page with the table. *)
Lemma extract_data_table url soup table :
  Soup.find_class "table" TABLE_CLASS soup = Some table ->
  table_pairs table ≠ [] ->
  extract_data url soup = Py.dict_set LINK_COLUMN url (assign [] (table_pairs table)).
Proof.
  intros Htable Hpairs. unfold extract_data. rewrite Htable.
  rewrite extract_rows_assign. fold (table_pairs table).
  by rewrite assign_truthy.
Qed.

(** A record that leaves lines 34-51 is empty or carries the URL. *)
Lemma extract_data_link url soup :
  extract_data url soup = [] ∨
  Py.dict_get LINK_COLUMN (extract_data url soup) = Some url.
Proof.
  unfold extract_data.
  destruct (Py.truthy _) eqn:E.
  - right. apply dict_get_set_eq.
  - left. destruct (match Soup.find_class "table" TABLE_CLASS soup with
                    | Some _ => _ | None => _ end); done.
Qed.

Lemma crawl_and_extract_data_Some get url record :
  crawl_and_extract_data get url = Ok (Some record) ->
  exists response, get url = GetReturns response ∧
                   record = extract_data url (content response).
Proof.
  unfold crawl_and_extract_data. destruct (get url) as [e|response].
  - by destruct (is_RequestException e).
  - destruct (raise_for_status response) as [[]|e].
    + intros [= <-]. eauto.
    + by destruct (is_RequestException e).
Qed.

(** C1, as amended. When the GET of [url] succeeds and the body has the marked
    table with at least one header/data pair, the fetcher returns a record
    whose [link] field is [url], whose other fields are exactly the header
    texts of the table, each header other than [link] mapped to the data
    text of the last row that carries it; when the headers are distinct
    and none reads [link], the record is the pairs in row order followed
    by the [link] field. *)
Theorem fetch_record_of_table get url response table :
  get url = GetReturns response ->
  raise_for_status response = Ok tt ->
  Soup.find_class "table" TABLE_CLASS (content response) = Some table ->
  table_pairs table ≠ [] ->
  exists record,
    crawl_and_extract_data get url = Ok (Some record) ∧
    Py.dict_get LINK_COLUMN record = Some url ∧
    (forall k, k ≠ LINK_COLUMN ->
       Py.dict_get k record = Py.dict_get k (reverse (table_pairs table))) ∧
    (forall k, k ∈ Py.keys record <-> k = LINK_COLUMN ∨ k ∈ (table_pairs table).*1) ∧
    NoDup (Py.keys record) ∧
    (NoDup (table_pairs table).*1 -> LINK_COLUMN ∉ (table_pairs table).*1 ->
     record = table_pairs table ++ [(LINK_COLUMN, url)]).
Proof.
  intros Hget Hstatus Htable Hpairs.
  exists (Py.dict_set LINK_COLUMN url (assign [] (table_pairs table))).
  split; [|split; [|split; [|split; [|split]]]].
  - unfold crawl_and_extract_data. rewrite Hget, Hstatus.
    by rewrite (extract_data_table _ _ table).
  - apply dict_get_set_eq.
  - intros k Hk. rewrite dict_get_set_ne by done.
    rewrite dict_get_assign. by destruct (Py.dict_get k (reverse _)).
  - intros k. rewrite keys_dict_set, keys_assign.
    unfold Py.keys at 1. simpl. rewrite elem_of_nil. naive_solver.
  - apply dict_set_NoDup, assign_NoDup. constructor.
  - intros Hnd Hlink. rewrite assign_fresh; [|done|].
    + simpl. by apply dict_set_fresh.
    + intros k _. apply not_elem_of_nil.
Qed.

Lemma fetch_record_of_table_witness :
  exists record,
    crawl_and_extract_data (fun _ => GetReturns (Sample.ok (Sample.page Sample.two_rows)))
                           Sample.url = Ok (Some record) ∧
    record = [("Key 1", "Value 1"); ("Key 2", "Value 2"); (LINK_COLUMN, Sample.url)].
Proof.
  destruct (fetch_record_of_table
              (fun _ => GetReturns (Sample.ok (Sample.page Sample.two_rows)))
              Sample.url (Sample.ok (Sample.page Sample.two_rows))
              (Sample.table Sample.two_rows) eq_refl eq_refl eq_refl)
    as (record & Hret & _ & _ & _ & _ & Hrec).
  - discriminate.
  - exists record. split; [exact Hret|]. apply Hrec.
    + apply (bool_decide_unpack _). by vm_compute.
    + apply (bool_decide_unpack _). by vm_compute.
Defined.

(** C1 as stated fails on a table with a header that reads [link]: the
    pair of that row is in the table, and the record maps [link] to the
    URL instead of to the data text of the row. *)
Lemma fetch_link_header_counterexample :
  let get := fun _ : string => GetReturns (Sample.ok (Sample.page Sample.link_rows)) in
  Soup.find_class "table" TABLE_CLASS (Sample.page Sample.link_rows)
    = Some (Sample.table Sample.link_rows) ∧
  table_pairs (Sample.table Sample.link_rows)
    = [("Key 1", "Value 1"); ("link", "elsewhere")] ∧
  crawl_and_extract_data get Sample.url
    = Ok (Some [("Key 1", "Value 1"); ("link", Sample.url)]) ∧
  Py.dict_get "link" [("Key 1", "Value 1"); ("link", Sample.url)] ≠ Some "elsewhere".
Proof. vm_compute. repeat split; discriminate. Qed.

(** C4, as amended. A record returned by the fetcher that is not empty has a
    [link] field, and a [link] field it has is the input URL; the record is
    empty, without a [link] field, on a page on which no row was extracted. *)
Theorem fetch_nonempty_record_has_link get url record :
  crawl_and_extract_data get url = Ok (Some record) ->
  (record ≠ [] -> Py.dict_get LINK_COLUMN record = Some url) ∧
  (forall v, Py.dict_get LINK_COLUMN record = Some v -> v = url).
Proof.
  intros (response & _ & ->)%crawl_and_extract_data_Some.
  destruct (extract_data_link url (content response)) as [E|E].
  - rewrite E. split; [done|]. intros v. discriminate.
  - rewrite E. split; [done|]. by intros v [= <-].
Qed.

Lemma fetch_nonempty_record_has_link_witness :
  Py.dict_get LINK_COLUMN [("Key 1", "Value 1"); ("Key 2", "Value 2"); (LINK_COLUMN, Sample.url)]
    = Some Sample.url.
Proof.
  apply (fetch_nonempty_record_has_link
           (fun _ => GetReturns (Sample.ok (Sample.page Sample.two_rows)))
           Sample.url _ eq_refl).
  discriminate.
Defined.

(** C4 as stated fails on a page without the table: the fetcher returns
    a record, not [None], and the record has no [link] field. *)
Lemma fetch_empty_record_counterexample :
  crawl_and_extract_data (fun _ => GetReturns (Sample.ok Sample.bare_page)) Sample.url
    = Ok (Some []) ∧
  Py.dict_get LINK_COLUMN [] = None.
Proof. vm_compute. done. Qed.

(** C7. When the GET ends in a transport error (a [RequestException]) or
    in a response with an error status (4xx or 5xx), the fetcher returns
    [None] and raises nothing. *)
Theorem fetch_failure_returns_None get url :
  (exists e, get url = GetRaises e ∧ is_RequestException e = true) ∨
  (exists r, get url = GetReturns r ∧ (400 <= status_code r < 600)%Z) ->
  crawl_and_extract_data get url = Ok None.
Proof.
  unfold crawl_and_extract_data, raise_for_status.
  intros [(e & -> & ->)|(r & -> & Hlo & Hhi)]; [done|].
  apply Z.leb_le in Hlo. apply Z.ltb_lt in Hhi. by rewrite Hlo, Hhi.
Qed.

Lemma fetch_failure_returns_None_witness :
  crawl_and_extract_data (fun _ => GetRaises ConnectionError) Sample.url = Ok None ∧
  crawl_and_extract_data
    (fun _ => GetReturns {| status_code := 404; content := Sample.bare_page |})
    Sample.url = Ok None.
Proof.
  split.
  - apply fetch_failure_returns_None. left. exists ConnectionError. split; reflexivity.
  - apply fetch_failure_returns_None. right.
    exists {| status_code := 404; content := Sample.bare_page |}.
    split; [reflexivity|]. split; [by vm_compute | reflexivity].
Defined.

(** ** Tables *)

Section TableFacts.
Variable c : string.
Implicit Types (l : list Py.dict) (r : Py.dict).

Local Abbreviation key := (Py.dict_get c).

Lemma keep_last_elem_of r l : r ∈ Pandas.keep_last c l -> r ∈ l.
Proof.
  induction l as [|r' l IH]; simpl; [done|].
  destruct (decide (key r' ∈ key <$> l)); rewrite ?elem_of_cons; naive_solver.
Qed.

Lemma keep_last_keys l k : k ∈ key <$> Pandas.keep_last c l <-> k ∈ key <$> l.
Proof.
  induction l as [|r' l IH]; simpl; [done|].
  destruct (decide (key r' ∈ key <$> l)) as [Hin|Hin]; simpl;
    rewrite !elem_of_cons, ?IH; naive_solver.
Qed.

Lemma keep_last_NoDup l : NoDup (key <$> Pandas.keep_last c l).
Proof.
  induction l as [|r' l IH]; simpl; [constructor|].
  destruct (decide (key r' ∈ key <$> l)) as [Hin|Hin]; [done|].
  simpl. constructor; [|done]. by rewrite keep_last_keys.
Qed.

Lemma keep_last_id l : NoDup (key <$> l) -> Pandas.keep_last c l = l.
Proof.
  induction l as [|r' l IH]; simpl; [done|].
  rewrite NoDup_cons. intros [Hr' Hl].
  rewrite decide_False by done. by rewrite IH.
Qed.

Lemma keep_last_app l1 l2 :
  Pandas.keep_last c (l1 ++ l2) =
  filter (fun r => key r ∉ key <$> l2) (Pandas.keep_last c l1) ++ Pandas.keep_last c l2.
Proof.
  induction l1 as [|r l1 IH]; simpl; [done|].
  rewrite fmap_app.
  destruct (decide (key r ∈ key <$> l1)) as [H1|H1].
  - rewrite decide_True by (apply elem_of_app; by left). done.
  - destruct (decide (key r ∈ key <$> l2)) as [H2|H2].
    + rewrite decide_True by (apply elem_of_app; by right).
      rewrite filter_cons_False by naive_solver. done.
    + rewrite decide_False by (rewrite elem_of_app; naive_solver).
      rewrite filter_cons_True by done. simpl. by rewrite IH.
Qed.



Lemma filter_keys_nil l1 l2 :
  (forall r, r ∈ l1 -> key r ∈ key <$> l2) ->
  filter (fun r => key r ∉ key <$> l2) l1 = [].
Proof.
  induction l1 as [|r l1 IH]; intros Hall; [done|].
  rewrite filter_cons_False.
  - apply IH. intros r' Hr'. apply Hall, elem_of_cons. by right.
  - intros Hn. apply Hn, Hall, elem_of_cons. by left.
Qed.

Lemma filter_keys_id l1 l2 :
  (forall r, r ∈ l1 -> key r ∉ key <$> l2) ->
  filter (fun r => key r ∉ key <$> l2) l1 = l1.
Proof.
  induction l1 as [|r l1 IH]; intros Hall; [done|].
  rewrite filter_cons_True by (apply Hall, elem_of_cons; by left).
  f_equal. apply IH. intros r' Hr'. apply Hall, elem_of_cons. by right.
Qed.

(** Dropping duplicates a second time against the same new rows changes
    nothing. *)
Lemma keep_last_twice l1 l2 :
  Pandas.keep_last c (Pandas.keep_last c (l1 ++ l2) ++ l2) =
  Pandas.keep_last c (l1 ++ l2).
Proof.
  rewrite (keep_last_app (Pandas.keep_last c (l1 ++ l2)) l2).
  rewrite (keep_last_id (Pandas.keep_last c (l1 ++ l2))) by apply keep_last_NoDup.
  rewrite (keep_last_app l1 l2) at 1. rewrite filter_app.
  rewrite (filter_keys_nil (Pandas.keep_last c l2)), app_nil_r.
  - rewrite keep_last_app. f_equal. apply filter_keys_id.
    intros r Hr. by apply list_elem_of_filter in Hr as [? _].
  - intros r Hr. apply list_elem_of_fmap. exists r. split; [done|].
    by apply keep_last_elem_of.
Qed.



End TableFacts.

Lemma add_columns_elem_of cols new k :
  k ∈ Pandas.add_columns cols new <-> k ∈ cols ∨ k ∈ new.
Proof.
  unfold Pandas.add_columns. revert cols.
  induction new as [|x new IH]; intros cols; simpl.
  - rewrite elem_of_nil. naive_solver.
  - rewrite IH, elem_of_cons. destruct (decide (x ∈ cols)).
    + naive_solver.
    + rewrite elem_of_app, list_elem_of_singleton. naive_solver.
Qed.

Lemma of_records_columns data k :
  k ∈ Pandas.columns (Pandas.of_records data) <-> exists r, r ∈ data ∧ k ∈ Py.keys r.
Proof.
  unfold Pandas.of_records. simpl.
  assert (forall cols,
    k ∈ foldl (fun acc r => Pandas.add_columns acc (Py.keys r)) cols data
    <-> k ∈ cols ∨ exists r, r ∈ data ∧ k ∈ Py.keys r) as Hgen.
  { induction data as [|r data IH]; intros cols; simpl.
    - split; [by left | intros [?|(r & Hr%elem_of_nil & _)]; done].
    - rewrite IH, add_columns_elem_of. setoid_rewrite elem_of_cons. naive_solver. }
  rewrite Hgen, elem_of_nil. naive_solver.
Qed.

Lemma add_columns_NoDup cols new : NoDup cols -> NoDup (Pandas.add_columns cols new).
Proof.
  unfold Pandas.add_columns. revert cols.
  induction new as [|x new IH]; intros cols Hnd; simpl; [done|].
  destruct (decide (x ∈ cols)); [by apply IH|].
  apply IH. apply NoDup_app. split; [done|]. split; [|apply NoDup_singleton].
  intros y Hy ->%list_elem_of_singleton. done.
Qed.

Lemma of_records_columns_NoDup data : NoDup (Pandas.columns (Pandas.of_records data)).
Proof.
  unfold Pandas.of_records. simpl.
  assert (forall cols, NoDup cols ->
            NoDup (foldl (fun acc r => Pandas.add_columns acc (Py.keys r)) cols data)) as Hgen.
  { induction data as [|r data IH]; intros cols Hnd; simpl; [done|].
    by apply IH, add_columns_NoDup. }
  apply Hgen. constructor.
Qed.

Lemma of_records_well_formed data : Pandas.well_formed (Pandas.of_records data).
Proof.
  apply Forall_forall. intros r Hr k Hk. apply of_records_columns. eauto.
Qed.

Lemma concat_well_formed a b :
  Pandas.well_formed a -> Pandas.well_formed b -> Pandas.well_formed (Pandas.concat a b).
Proof.
  unfold Pandas.well_formed, Pandas.concat. simpl. intros Ha Hb.
  apply Forall_app. split; (eapply Forall_impl; [eassumption|]);
    intros r Hr k Hk; apply add_columns_elem_of; auto.
Qed.


(** ** The spreadsheet sink *)

Lemma to_excel_Returned df d d' :
  to_excel df d = Returned d' -> file d' = Some df ∧ faults d' = tail (faults d).
Proof. unfold to_excel. destruct (faults d) as [|[] fs]; by intros [= <-]. Qed.

Lemma to_excel_Raised df d e d' :
  to_excel df d = Raised e d' -> e = OSError ∧ file d' = file d.
Proof. unfold to_excel. destruct (faults d) as [|[] fs]; by intros [= <- <-]. Qed.

Lemma to_excel_no_fault df d :
  faults d = [] -> to_excel df d = Returned {| file := Some df; faults := [] |}.
Proof. unfold to_excel. by intros ->. Qed.

Lemma has_link_column batch r :
  r ∈ batch -> has_link r -> LINK_COLUMN ∈ Pandas.columns (Pandas.of_records batch).
Proof.
  intros Hr Hl. apply of_records_columns. exists r. split; [done|].
  by apply dict_get_is_Some.
Qed.

Lemma has_link_columns batch :
  batch ≠ [] -> Forall has_link batch ->
  LINK_COLUMN ∈ Pandas.columns (Pandas.of_records batch).
Proof.
  destruct batch as [|r batch]; [done|]. intros _ Hall.
  apply (has_link_column _ r); [apply elem_of_cons; by left|].
  by apply Forall_cons in Hall as [? _].
Qed.

(** The merge branch on a table with the [link] column. *)
Lemma persist_merge_keyed data existing d :
  file d = Some existing -> faults d = [] ->
  LINK_COLUMN ∈ Pandas.columns (Pandas.concat existing (Pandas.of_records data)) ->
  append_or_create_excel data true d =
  Returned {| file := Some {| Pandas.columns :=
                                Pandas.columns (Pandas.concat existing (Pandas.of_records data));
                              Pandas.rows :=
                                Pandas.keep_last LINK_COLUMN (Pandas.rows existing ++ data) |};
              faults := [] |}.
Proof.
  intros Hfile Hfaults Hcol. unfold append_or_create_excel. rewrite Hfile.
  unfold Pandas.drop_duplicates.
  destruct (Pandas.empty _) eqn:Hempty.
  - rewrite to_excel_no_fault by done. do 3 f_equal.
    unfold Pandas.empty in Hempty.
    destruct (Pandas.columns (Pandas.concat existing (Pandas.of_records data))) eqn:Hc;
      [by apply elem_of_nil in Hcol|].
    destruct (Pandas.concat existing (Pandas.of_records data)) as [cols rws] eqn:Hcc.
    simpl in *. subst cols.
    assert (rws = Pandas.rows existing ++ data) as Hrws
      by (unfold Pandas.concat in Hcc; by injection Hcc as _ <-).
    rewrite <-Hrws. destruct rws; [done|]. done.
  - rewrite decide_True by done. by rewrite to_excel_no_fault.
Qed.



(** What the sink builds from faithful tables and plain records is
    faithful: a merge makes no text and no label of its own. *)
Lemma of_records_faithful data :
  Forall (fun r => r ≠ [] ∧ Excel.plain_record r) data ->
  Excel.faithful (Pandas.of_records data).
Proof.
  intros Hdata. split; [apply of_records_columns_NoDup|]. split.
  - apply Forall_forall. intros c (r & Hr & Hc)%of_records_columns.
    apply (proj1 (Forall_forall _ _) Hdata) in Hr as [_ Hplain].
    unfold Py.keys in Hc. apply list_elem_of_fmap in Hc as ([k v] & -> & Hkv).
    by apply (proj1 (Forall_forall _ _) Hplain) in Hkv as [? _].
  - simpl. apply Forall_forall. intros r Hr.
    pose proof (proj1 (Forall_forall _ _) Hdata r Hr) as [Hne Hplain].
    split; [done|]. split; [|done]. intros k Hk. apply of_records_columns. eauto.
Qed.

Lemma concat_faithful a b :
  Excel.faithful a -> Excel.faithful b -> Excel.faithful (Pandas.concat a b).
Proof.
  intros (Hnda & Hca & Hra) (Hndb & Hcb & Hrb). split; [by apply add_columns_NoDup|]. split.
  - apply Forall_forall. intros c [Hc|Hc]%add_columns_elem_of.
    + by apply (proj1 (Forall_forall _ _) Hca).
    + by apply (proj1 (Forall_forall _ _) Hcb).
  - simpl. apply Forall_app. split; (eapply Forall_impl; [eassumption|]);
      intros r (Hne & Hkeys & Hplain); (split; [done|]); (split; [|done]);
      intros k Hk; apply add_columns_elem_of; auto.
Qed.

Lemma keep_last_faithful c t :
  Excel.faithful t ->
  Excel.faithful {| Pandas.columns := Pandas.columns t;
                    Pandas.rows := Pandas.keep_last c (Pandas.rows t) |}.
Proof.
  intros (Hnd & Hc & Hr). split; [done|]. split; [done|]. simpl.
  apply Forall_forall. intros r Hr'%keep_last_elem_of.
  by apply (proj1 (Forall_forall _ _) Hr).
Qed.

Lemma persist_faithful data append d d' :
  faithful_disk d ->
  Forall (fun r => r ≠ [] ∧ Excel.plain_record r) data ->
  append_or_create_excel data append d = Returned d' ->
  faithful_disk d'.
Proof.
  unfold faithful_disk, append_or_create_excel. intros Hd Hdata.
  pose proof (of_records_faithful data Hdata) as Hnew.
  destruct append, (file d) as [existing|] eqn:Hfile;
    try (intros [-> _]%to_excel_Returned; exact Hnew).
  pose proof (concat_faithful existing (Pandas.of_records data) Hd Hnew) as Hcc.
  unfold Pandas.drop_duplicates. destruct (Pandas.empty _).
  - by intros [-> _]%to_excel_Returned.
  - destruct (decide _); [|done].
    intros [-> _]%to_excel_Returned. by apply (keep_last_faithful LINK_COLUMN) in Hcc.
Qed.

Lemma has_link_nonempty r : has_link r -> r ≠ [].
Proof. intros [v Hv] ->. done. Qed.

Lemma linked_plain_records batch :
  Forall has_link batch -> Forall Excel.plain_record batch ->
  Forall (fun r => r ≠ [] ∧ Excel.plain_record r) batch.
Proof.
  intros Hlinks Hplain. apply Forall_forall. intros r Hr. split.
  - by apply has_link_nonempty, (proj1 (Forall_forall _ _) Hlinks).
  - by apply (proj1 (Forall_forall _ _) Hplain).
Qed.



(** ** The thread pool *)

Section PoolFacts.
Variable http : nat -> string -> get_outcome.
Variable urls : list string.

Lemma rank_app_l i l1 l2 : i ∈ l1 -> rank i (l1 ++ l2) = rank i l1.
Proof.
  induction l1 as [|j l1 IH]; simpl; [by intros ?%elem_of_nil|].
  rewrite elem_of_cons. destruct (decide (j = i)); [done|].
  intros [?|Hin]; [congruence|]. by rewrite IH.
Qed.

Lemma rank_app_r i l1 l2 : i ∉ l1 -> rank i (l1 ++ i :: l2) = length l1.
Proof.
  induction l1 as [|j l1 IH]; simpl.
  - intros _. by rewrite decide_True.
  - rewrite not_elem_of_cons. intros [Hne Hin].
    rewrite decide_False by done. by rewrite IH.
Qed.

Lemma futures_after_lookup done i url :
  urls !! i = Some url ->
  futures_after http urls done !! i =
  Some (if decide (i ∈ done)
        then Some (crawl_and_extract_data (http (rank i done)) url)
        else None).
Proof. intros Hurl. unfold futures_after. by rewrite list_lookup_imap, Hurl. Qed.

Lemma futures_after_length done : length (futures_after http urls done) = length urls.
Proof. unfold futures_after. apply length_imap. Qed.

Lemma submit_pool_after schedule : pool_after http urls [] (submit urls schedule).
Proof.
  split; [done|]. split; [done|].
  change (replicate (length urls) None = futures_after http urls []).
  apply list_eq. intros i.
  destruct (urls !! i) as [url|] eqn:Hurl.
  - rewrite (futures_after_lookup [] i url Hurl).
    rewrite decide_False by apply not_elem_of_nil.
    apply lookup_replicate. split; [done|]. by apply lookup_lt_Some in Hurl.
  - apply lookup_ge_None in Hurl.
    rewrite !(proj2 (lookup_ge_None _ _));
      rewrite ?futures_after_length, ?length_replicate; done.
Qed.

(** A completion event takes the pool to the next state. *)
Lemma complete_pool_after j done p :
  pool_after http urls done p -> pool_after http urls (done ++ [j]) (complete http j p).
Proof.
  intros (Hclock & Htasks & Hfut). unfold complete.
  assert (futures_after http urls (done ++ [j]) =
          match futures p !! j, tasks p !! j with
          | Some None, Some url =>
              <[j := Some (crawl_and_extract_data (http (clock p)) url)]> (futures p)
          | _, _ => futures p
          end) as Hnext.
  { rewrite Htasks, Hfut. apply list_eq. intros k.
    destruct (urls !! k) as [url|] eqn:Hk.
    - rewrite (futures_after_lookup _ k url Hk).
      destruct (decide (k = j)) as [->|Hne].
      + rewrite (futures_after_lookup done j url Hk), Hk.
        destruct (decide (j ∈ done)) as [Hin|Hin].
        * rewrite (futures_after_lookup done j url Hk).
          rewrite decide_True by (apply elem_of_app; by left).
          rewrite decide_True by done. by rewrite rank_app_l.
        * rewrite list_lookup_insert_eq
            by (rewrite futures_after_length; by apply lookup_lt_Some in Hk).
          rewrite decide_True by (apply elem_of_app; right; by apply list_elem_of_singleton).
          by rewrite rank_app_r, Hclock.
      + assert (futures_after http urls done !! k =
                Some (if decide (k ∈ done ++ [j])
                      then Some (crawl_and_extract_data (http (rank k (done ++ [j]))) url)
                      else None)) as Hsame.
        { rewrite (futures_after_lookup done k url Hk). f_equal.
          destruct (decide (k ∈ done)) as [Hin|Hin].
          - rewrite decide_True by (apply elem_of_app; by left). by rewrite rank_app_l.
          - rewrite decide_False; [done|].
            rewrite elem_of_app, list_elem_of_singleton. naive_solver. }
        destruct (futures_after http urls done !! j) as [[?|]|]; [done| |done].
        destruct (urls !! j); [|done]. by rewrite list_lookup_insert_ne.
    - apply lookup_ge_None in Hk.
      rewrite (proj2 (lookup_ge_None _ _)) by (by rewrite futures_after_length).
      symmetry. apply lookup_ge_None.
      destruct (futures_after http urls done !! j) as [[?|]|];
        [|destruct (urls !! j)|]; rewrite ?length_insert, futures_after_length; done. }
  repeat split.
  - destruct (futures p !! j) as [[?|]|], (tasks p !! j); simpl;
      rewrite Hclock, length_app; simpl; lia.
  - by destruct (futures p !! j) as [[?|]|], (tasks p !! j).
  - rewrite Hnext. by destruct (futures p !! j) as [[?|]|], (tasks p !! j).
Qed.

(** A future whose task finishes at some point of the schedule is
    obtained, with the fetch completed at the rank of the task. *)
Lemma await_settles i url evs : forall done p,
  pool_after http urls done p ->
  urls !! i = Some url ->
  i ∈ done ++ evs ->
  exists p' evs1,
    await http i evs p =
      Some (crawl_and_extract_data (http (rank i (done ++ evs))) url, p') ∧
    pool_after http urls (done ++ evs1) p' ∧
    done ++ evs = (done ++ evs1) ++ pending p'.
Proof.
  induction evs as [|j evs IH]; intros done p Hp Hurl Hin.
  - rewrite app_nil_r in Hin. destruct Hp as (Hclock & Htasks & Hfut).
    simpl. rewrite Hfut, (futures_after_lookup done i url Hurl).
    rewrite decide_True by done. eexists _, [].
    rewrite !app_nil_r. split; [done|].
      split; [by repeat split | simpl; by rewrite ?app_nil_r].
  - pose proof Hp as (Hclock & Htasks & Hfut).
    simpl. rewrite Hfut, (futures_after_lookup done i url Hurl).
    destruct (decide (i ∈ done)) as [Hd|Hd].
    + eexists _, []. rewrite rank_app_l by done.
      rewrite !app_nil_r. split; [done|].
      split; [by repeat split | simpl; by rewrite ?app_nil_r].
    + destruct (IH (done ++ [j]) (complete http j p)) as (p' & evs1 & Haw & Hp' & Hsched).
      * by apply complete_pool_after.
      * done.
      * by rewrite <-app_assoc.
      * exists p', (j :: evs1). rewrite <-app_assoc in Haw. simpl in Haw.
        split; [done|]. rewrite <-!app_assoc in *. simpl in *. by split.
Qed.

End PoolFacts.

(** ** The range crawler *)

#[local] Arguments Nat.leb : simpl never.
#[local] Arguments Z.eqb : simpl never.
#[local] Arguments append_or_create_excel : simpl never.

Section CrawlFacts.
Variable http : nat -> string -> get_outcome.
Variables (start_id end_id : Z) (append : bool).

Local Abbreviation handle := (handle_result start_id end_id append).
Local Abbreviation run := (process start_id end_id append).

(** The body of the loop neither reads nor writes the pool. *)
Lemma record_result_set_pool i x p st :
  record_result start_id i x (set_pool p st) =
  set_pool p (record_result start_id i x st).
Proof. by destruct x as [[|]|]. Qed.

Lemma flush_batch_set_pool p st :
  flush_batch append (set_pool p st) = outcome_map (set_pool p) (flush_batch append st).
Proof.
  unfold flush_batch. simpl. destruct (batch_size <=? _); [|done].
  by destruct (append_or_create_excel _ _ _).
Qed.

Lemma report_progress_set_pool i p st :
  report_progress start_id end_id i (set_pool p st) =
  outcome_map (set_pool p) (report_progress start_id end_id i st).
Proof. unfold report_progress. by destruct (_ =? _)%Z. Qed.

Lemma handle_result_set_pool i res p st :
  handle i res (set_pool p st) = set_pool p (handle i res st).
Proof.
  unfold handle_result, try_body. destruct res as [x|e]; [|done].
  rewrite record_result_set_pool, flush_batch_set_pool.
  destruct (flush_batch append _) as [st'|e st']; simpl; [|done].
  rewrite report_progress_set_pool. by destruct (report_progress _ _ _ _).
Qed.

Lemma process_set_pool results : forall i p st,
  run i results (set_pool p st) = set_pool p (run i results st).
Proof.
  induction results as [|res results IH]; intros i p st; simpl; [done|].
  by rewrite handle_result_set_pool, IH.
Qed.

Lemma final_flush_set_pool p st :
  final_flush append (set_pool p st) = outcome_map (set_pool p) (final_flush append st).
Proof.
  unfold final_flush. simpl. destruct (Py.truthy _); [|done].
  by destruct (append_or_create_excel _ _ _).
Qed.

(** With every task finishing at some point of the schedule, the loop
    obtains every future and runs the bodies in submission order, each
    on what its task produced. *)
Lemma loop_process urls schedule m : forall k st done,
  pool_after http urls done (pool st) ->
  schedule = done ++ pending (pool st) ->
  (forall i, k <= i < k + m -> urls !! i = Some (url_of start_id i) ∧ i ∈ schedule) ->
  exists p,
    loop http start_id end_id append (seq k m) st =
    Some (set_pool p (run k (settled http start_id schedule <$> seq k m) st)).
Proof.
  induction m as [|m IH]; intros k st done Hpool Hsched Hall.
  - exists (pool st). simpl. by destruct st.
  - destruct (Hall k) as [Hurl Hin]; [lia|].
    rewrite Hsched in Hin.
    destruct (await_settles http urls k _ _ done (pool st) Hpool Hurl Hin)
      as (p' & evs1 & Haw & Hpool' & Hsched').
    simpl. unfold iteration, future_result. rewrite Haw, <-Hsched.
    rewrite handle_result_set_pool.
    destruct (IH (S k) (set_pool p' (handle k (settled http start_id schedule k) st))
                 (done ++ evs1)) as (p'' & Hloop).
    + done.
    + simpl. by rewrite Hsched, Hsched'.
    + intros i Hi. apply Hall. lia.
    + exists p''. unfold settled at 1 in Hloop. rewrite Hloop.
      by rewrite process_set_pool.
Qed.

Lemma id_range_lookup i :
  i < Z.to_nat (end_id - start_id + 1) ->
  ((fun id => BASE_URL +:+ Py.str id) <$> id_range start_id end_id) !! i
  = Some (url_of start_id i).
Proof.
  intros Hi. unfold id_range, url_of.
  rewrite !list_lookup_fmap, lookup_seq_lt by done. done.
Qed.

Lemma id_range_length :
  length ((fun id => BASE_URL +:+ Py.str id) <$> id_range start_id end_id)
  = Z.to_nat (end_id - start_id + 1).
Proof. unfold id_range. by rewrite !length_fmap, length_seq. Qed.

(** The run, on a pool that accepts the worker count and a schedule
    under which every task finishes. *)
Lemma crawl_process num_threads schedule d :
  (0 < num_threads)%Z ->
  (forall i, i < Z.to_nat (end_id - start_id + 1) -> i ∈ schedule) ->
  exists p,
    crawl_kensetsu_databank_range http start_id end_id append num_threads schedule d =
    Some (final_flush append
            (set_pool p (run 0 (settled http start_id schedule
                                  <$> seq 0 (Z.to_nat (end_id - start_id + 1)))
                             (initial d)))).
Proof.
  intros Hthreads Hall.
  unfold crawl_kensetsu_databank_range, pool_block, ThreadPoolExecutor.
  rewrite (proj2 (Z.leb_gt _ _)) by done.
  destruct (loop_process
              ((fun id => BASE_URL +:+ Py.str id) <$> id_range start_id end_id)
              schedule (Z.to_nat (end_id - start_id + 1)) 0
              (set_pool (submit ((fun id => BASE_URL +:+ Py.str id)
                                   <$> id_range start_id end_id) schedule) (initial d))
              []) as (p & Hloop).
  - apply submit_pool_after.
  - done.
  - intros i Hi. split; [apply id_range_lookup | apply Hall]; lia.
  - exists p. rewrite id_range_length, Hloop.
    by rewrite process_set_pool.
Qed.

End CrawlFacts.

(** ** What the loop records *)

Lemma appended_app t1 t2 : appended (t1 ++ t2) = appended t1 ++ appended t2.
Proof. apply omap_app. Qed.

Lemma flushes_app t1 t2 : flushes (t1 ++ t2) = flushes t1 ++ flushes t2.
Proof. apply omap_app. Qed.

Lemma persisted_app t1 t2 : persisted (t1 ++ t2) = persisted t1 ++ persisted t2.
Proof. apply omap_app. Qed.

(** Rewrites the projections of a trace that was extended event by event. *)
Ltac trace_simpl :=
  simpl;
  rewrite ?appended_app, ?flushes_app, ?persisted_app, ?concat_app; simpl;
  rewrite ?app_nil_r, <-?app_assoc; simpl.

Lemma fetched_record_link get url r :
  record_of (crawl_and_extract_data get url) = Some r -> link_of r = Some url.
Proof.
  destruct (crawl_and_extract_data get url) as [[r'|]|] eqn:E; [|done..].
  apply crawl_and_extract_data_Some in E as (response & _ & ->).
  destruct (extract_data_link url (content response)) as [Hnil|Hlink].
  - by rewrite Hnil.
  - unfold record_of. destruct (extract_data url (content response)) eqn:E; [done|].
    by intros [= <-].
Qed.

Section ProcessFacts.
Variables (start_id end_id : Z) (append : bool).

Local Abbreviation handle := (handle_result start_id end_id append).
Local Abbreviation run := (process start_id end_id append).

(** One pass appends the record of its future, if it has one. *)
Lemma handle_result_appended i res st :
  appended (trace (handle i res st)) =
  appended (trace st) ++ option_list (record_of res).
Proof.
  unfold handle_result, try_body, flush_batch, report_progress, record_result.
  destruct res as [[[|pair record]|]|e]; simpl; repeat case_match; simplify_eq;
    by trace_simpl.
Qed.

Lemma process_appended results : forall i st,
  appended (trace (run i results st)) =
  appended (trace st) ++ omap record_of results.
Proof.
  induction results as [|res results IH]; intros i st; simpl.
  - by rewrite app_nil_r.
  - rewrite IH, handle_result_appended, <-app_assoc. f_equal.
    by destruct (record_of res).
Qed.

Lemma handle_result_accounted i res st :
  accounted st -> accounted (handle i res st).
Proof.
  unfold accounted, handle_result, try_body, flush_batch, report_progress,
    record_result.
  intros Hst.
  destruct res as [[[|pair record]|]|e]; simpl; repeat case_match; simplify_eq;
    trace_simpl; rewrite Hst, <-?app_assoc; done.
Qed.

Lemma process_accounted results : forall i st,
  accounted st -> accounted (run i results st).
Proof.
  induction results as [|res results IH]; intros i st Hst; simpl; [done|].
  by apply IH, handle_result_accounted.
Qed.

Lemma final_flush_appended st :
  appended (trace (state_of (final_flush append st))) = appended (trace st).
Proof. unfold final_flush. repeat case_match; simplify_eq; by trace_simpl. Qed.

Lemma final_flush_prefix st :
  accounted st ->
  concat (persisted (trace (state_of (final_flush append st))))
    `prefix_of` appended (trace st).
Proof.
  unfold accounted, final_flush. intros ->.
  repeat case_match; simplify_eq; trace_simpl; (done || by apply prefix_app_r).
Qed.

End ProcessFacts.

Lemma omap_fmap_compose {A B C} (f : A -> B) (g : B -> option C) (l : list A) :
  omap g (f <$> l) = omap (fun x => g (f x)) l.
Proof.
  induction l as [|x l IH]; [done|].
  change (omap g (f <$> x :: l)) with
    (match g (f x) with Some y => y :: omap g (f <$> l) | None => omap g (f <$> l) end).
  by rewrite IH.
Qed.

Lemma state_of_outcome_map {A B} (f : A -> B) (o : outcome A) :
  state_of (outcome_map f o) = f (state_of o).
Proof. by destruct o. Qed.

(** The links of the records of a list of tasks are the URLs of a
    subsequence of the list. *)
Lemma record_links_sublist http start_id schedule (l : list nat) :
  exists ids,
    sublist ids l ∧
    link_of <$> omap (fun i => record_of (settled http start_id schedule i)) l
    = (fun i => Some (url_of start_id i)) <$> ids.
Proof.
  induction l as [|i l (ids & Hsub & Hlinks)]; [by exists []|].
  change (i :: l) with ([i] ++ l). rewrite omap_app, fmap_app, Hlinks.
  destruct (record_of (settled http start_id schedule i)) as [r|] eqn:E.
  - exists (i :: ids). split; [by constructor|].
    simpl. rewrite E. simpl. f_equal. by apply fetched_record_link in E.
  - exists ids. split; [by constructor|]. simpl. by rewrite E.
Qed.

(** C3. With more than one worker and whatever the order in which the
    fetches complete, the run obtains every future, and the records it
    appends to the batch are those of the identifiers in ascending order:
    the record of each identifier whose fetch gave one, identifier by
    identifier. Their links are the URLs of an ascending selection of the
    range, and the records the sink has stored, flush after flush, are an
    initial part of that sequence. *)
Theorem appends_in_submission_order http start_id end_id append num_threads schedule d :
  (1 < num_threads)%Z ->
  (forall i, i < Z.to_nat (end_id - start_id + 1) -> i ∈ schedule) ->
  exists out ids,
    crawl_kensetsu_databank_range http start_id end_id append num_threads schedule d
      = Some out ∧
    appended (trace (state_of out))
      = omap (fun i => record_of (settled http start_id schedule i))
             (seq 0 (Z.to_nat (end_id - start_id + 1))) ∧
    sublist ids (seq 0 (Z.to_nat (end_id - start_id + 1))) ∧
    link_of <$> appended (trace (state_of out))
      = (fun i => Some (url_of start_id i)) <$> ids ∧
    concat (persisted (trace (state_of out))) `prefix_of` appended (trace (state_of out)).
Proof.
  intros Hthreads Hall.
  destruct (crawl_process http start_id end_id append num_threads schedule d)
    as (p & Hrun); [lia | done |].
  set (n := Z.to_nat (end_id - start_id + 1)) in *.
  set (st := process start_id end_id append 0 (settled http start_id schedule <$> seq 0 n)
                     (initial d)) in *.
  assert (appended (trace st)
          = omap (fun i => record_of (settled http start_id schedule i)) (seq 0 n))
    as Happ.
  { unfold st. rewrite process_appended. simpl. by rewrite omap_fmap_compose. }
  destruct (record_links_sublist http start_id schedule (seq 0 n)) as (ids & Hsub & Hlinks).
  exists (final_flush append (set_pool p st)), ids.
  rewrite final_flush_set_pool, state_of_outcome_map.
  change (trace (set_pool p ?s)) with (trace s).
  rewrite final_flush_appended.
  split; [by rewrite Hrun, final_flush_set_pool|].
  split; [done|]. split; [done|]. split; [by rewrite Happ|].
  apply final_flush_prefix, process_accounted. done.
Qed.

Lemma appends_in_submission_order_witness :
  exists out ids,
    crawl_kensetsu_databank_range Sample.server 100 102 true 2 [2; 0; 1] Sample.fresh
      = Some out ∧
    appended (trace (state_of out))
      = omap (fun i => record_of (settled Sample.server 100 [2; 0; 1] i)) (seq 0 3) ∧
    sublist ids (seq 0 3) ∧
    link_of <$> appended (trace (state_of out))
      = (fun i => Some (url_of 100 i)) <$> ids ∧
    concat (persisted (trace (state_of out))) `prefix_of` appended (trace (state_of out)).
Proof.
  apply (appends_in_submission_order Sample.server 100 102 true 2 [2; 0; 1] Sample.fresh).
  - reflexivity.
  - intros i Hi. change (i < 3) in Hi.
    destruct i as [|[|[|i]]]; [apply (bool_decide_unpack _); by vm_compute..|lia].
Defined.

(** A page without the marked table, or whose table holds no header/data
    pair, gives the empty record. *)
Lemma extract_data_empty url soup :
  (forall table, Soup.find_class "table" TABLE_CLASS soup = Some table ->
                 table_pairs table = []) ->
  extract_data url soup = [].
Proof.
  intros Hnone. unfold extract_data.
  destruct (Soup.find_class "table" TABLE_CLASS soup) as [table|]; [|done].
  rewrite extract_rows_assign. fold (table_pairs table).
  by rewrite (Hnone table).
Qed.



(** C9. With [end_id < start_id], on a pool that accepts the worker count
    (the default 1 or any positive count), the run submits no task, obtains
    no future, calls the sink not at all and returns: the trace is empty,
    no error is logged or raised, the division of the progress line is
    never evaluated, and the disk is as it was. *)
Theorem empty_range_does_nothing
    http start_id end_id append num_threads schedule d :
  (end_id < start_id)%Z ->
  (0 < num_threads)%Z ->
  exists st,
    crawl_kensetsu_databank_range http start_id end_id append num_threads schedule d
      = Some (Returned st) ∧
    tasks (pool st) = [] ∧ clock (pool st) = 0 ∧
    trace st = [] ∧ disk st = d ∧ all_data st = [] ∧ error_links st = [].
Proof.
  intros Hrange Hthreads.
  unfold crawl_kensetsu_databank_range, pool_block, ThreadPoolExecutor, id_range.
  rewrite (proj2 (Z.leb_gt _ _)) by done.
  replace (Z.to_nat (end_id - start_id + 1)) with 0 by lia.
  simpl. eexists. split; [done|]. done.
Qed.

Lemma empty_range_does_nothing_witness :
  exists st,
    crawl_kensetsu_databank_range Sample.steady 100 99 true 1 [] Sample.fresh
      = Some (Returned st) ∧
    tasks (pool st) = [] ∧ clock (pool st) = 0 ∧
    trace st = [] ∧ disk st = Sample.fresh ∧ all_data st = [] ∧ error_links st = [].
Proof.
  apply (empty_range_does_nothing Sample.steady 100 99 true 1 [] Sample.fresh);
    reflexivity.
Defined.

(** ** Flushes that succeed *)

(** On a disk whose writes succeed, the sink returns on a batch of records
    that all have their link. *)
Lemma persist_returns batch append d :
  faults d = [] -> Forall has_link batch -> batch ≠ [] ->
  exists d', append_or_create_excel batch append d = Returned d' ∧ faults d' = [].
Proof.
  intros Hfaults Hlinks Hne. unfold append_or_create_excel.
  destruct append, (file d) as [existing|] eqn:Hfile;
    try (rewrite to_excel_no_fault by done; by eexists).
  unfold Pandas.drop_duplicates. destruct (Pandas.empty _).
  - rewrite to_excel_no_fault by done. by eexists.
  - rewrite decide_True.
    + rewrite to_excel_no_fault by done. by eexists.
    + apply add_columns_elem_of. right. by apply has_link_columns.
Qed.

Section SuccessFacts.
Variables (start_id end_id : Z) (append : bool).
Hypothesis Htotal : total_ids start_id end_id ≠ 0%Z.

Local Abbreviation handle := (handle_result start_id end_id append).
Local Abbreviation run := (process start_id end_id append).

Lemma handle_result_success i r st :
  r ≠ [] -> has_link r -> healthy st ->
  healthy (handle i (Ok (Some r)) st) ∧
  if batch_size <=? length (all_data st ++ [r])
  then all_data (handle i (Ok (Some r)) st) = [] ∧
       flushes (trace (handle i (Ok (Some r)) st))
       = flushes (trace st) ++ [(all_data st ++ [r], None)]
  else all_data (handle i (Ok (Some r)) st) = all_data st ++ [r] ∧
       flushes (trace (handle i (Ok (Some r)) st)) = flushes (trace st).
Proof.
  intros Hr Hlink [Hfaults Hall].
  assert (Forall has_link (all_data st ++ [r])) as Hall'
    by (apply Forall_app; split; [done | by constructor]).
  unfold healthy, handle_result, try_body, flush_batch, report_progress, record_result.
  destruct r as [|pair r]; [done|]. simpl.
  rewrite (proj2 (Z.eqb_neq _ _) Htotal).
  destruct (batch_size <=? length (all_data st ++ [pair :: r])) eqn:Hfull.
  - destruct (persist_returns (all_data st ++ [pair :: r]) append (disk st))
      as (d' & -> & Hd'); [done..| |].
    { by destruct (all_data st). }
    simpl. split; [by split|]. split; [done|]. by trace_simpl.
  - simpl. split; [by split|]. split; [done|]. by trace_simpl.
Qed.

(** The flushes of a loop in which every future gives a record are the
    batches of [accumulate]. *)
Lemma process_success records : forall i st,
  Forall (fun r => r ≠ [] ∧ has_link r) records ->
  healthy st ->
  healthy (run i ((fun r => Ok (Some r)) <$> records) st) ∧
  all_data (run i ((fun r => Ok (Some r)) <$> records) st)
    = (accumulate (all_data st) records).2 ∧
  flushes (trace (run i ((fun r => Ok (Some r)) <$> records) st))
    = flushes (trace st)
      ++ ((fun b => (b, None)) <$> (accumulate (all_data st) records).1).
Proof.
  induction records as [|r records IH]; intros i st Hrecs Hst.
  - simpl. by rewrite app_nil_r.
  - apply Forall_cons in Hrecs as [[Hr Hlink] Hrecs].
    destruct (handle_result_success i r st Hr Hlink Hst) as [Hst' Hstep].
    specialize (IH (S i) (handle i (Ok (Some r)) st) Hrecs Hst').
    destruct IH as (Hh & Hdata & Hfl).
    change (run i ((fun r => Ok (Some r)) <$> r :: records) st)
      with (run (S i) ((fun r => Ok (Some r)) <$> records) (handle i (Ok (Some r)) st)).
    split; [done|]. rewrite Hdata, Hfl. simpl.
    destruct (batch_size <=? length (all_data st ++ [r])); destruct Hstep as [-> ->].
    + destruct (accumulate [] records) as [flushed rest]. simpl.
      by rewrite <-app_assoc.
    + done.
Qed.

Lemma final_flush_success st :
  healthy st -> all_data st ≠ [] ->
  exists d', final_flush append st
             = Returned (log (EvFlush (all_data st) None) (set_disk d' st)).
Proof.
  intros [Hfaults Hall] Hne. unfold final_flush.
  destruct (all_data st) as [|r l] eqn:E; [done|]. simpl.
  destruct (persist_returns (r :: l) append (disk st)) as (d' & -> & _); [done..|].
  by exists d'.
Qed.

End SuccessFacts.

(** Sixty-five records fill two batches of 32 and leave one record. *)
Lemma accumulate_65 (records : list Py.dict) :
  length records = 65 ->
  exists b1 b2 b3,
    accumulate [] records = ([b1; b2], b3) ∧
    length b1 = 32 ∧ length b2 = 32 ∧ length b3 = 1 ∧
    records = b1 ++ b2 ++ b3.
Proof.
  intros Hlen.
  do 65 (destruct records as [|? records]; [discriminate Hlen|]).
  destruct records; [|discriminate Hlen].
  vm_compute. eexists _, _, _. repeat split; reflexivity.
Qed.

Lemma record_of_Some res r : record_of res = Some r -> res = Ok (Some r) ∧ r ≠ [].
Proof. destruct res as [[[|pair r']|]|]; simpl; intros [= <-] || done. done. Qed.

(** Futures that all give a record, as the list of their records. *)
Lemma all_records {A} (f : A -> fetched) (link : A -> string) (l : list A) :
  (forall x, x ∈ l -> is_Some (record_of (f x))) ->
  (forall x r, record_of (f x) = Some r -> link_of r = Some (link x)) ->
  f <$> l = (fun r => Ok (Some r)) <$> omap (fun x => record_of (f x)) l ∧
  length (omap (fun x => record_of (f x)) l) = length l ∧
  Forall (fun r => r ≠ [] ∧ has_link r) (omap (fun x => record_of (f x)) l).
Proof.
  intros Hall Hlink. induction l as [|x l IH]; [by repeat split|].
  destruct IH as (Hmap & Hlen & Hrecs).
  { intros y Hy. apply Hall, elem_of_cons. by right. }
  destruct (Hall x) as [r Hr]; [apply elem_of_cons; by left|].
  change (x :: l) with ([x] ++ l). rewrite omap_app, !fmap_app, !length_app.
  assert (omap (fun x => record_of (f x)) [x] = [r]) as -> by (simpl; by rewrite Hr).
  rewrite <-Hmap, Hlen.
  pose proof (record_of_Some _ _ Hr) as [Hres Hne].
  split; [simpl; by rewrite Hres|]. split; [done|].
  apply Forall_app. split; [|done]. constructor; [|done]. split; [done|].
  unfold has_link. rewrite (Hlink x r Hr). by eexists.
Qed.

(** C5. A crawl of 65 identifiers whose fetches all give a record, on a
    pool that accepts the worker count and a disk whose writes succeed,
    calls the sink exactly three times, with batches of 32, 32 and 1
    records, every call returning; the three batches are the appended
    records cut at the threshold, so each threshold flush left the batch
    empty. *)
Theorem sixty_five_records_three_flushes
    http start_id end_id append num_threads schedule d :
  (end_id - start_id + 1 = 65)%Z ->
  (0 < num_threads)%Z ->
  (forall i, i < 65 -> i ∈ schedule) ->
  (forall n i, i < 65 ->
     is_Some (record_of (crawl_and_extract_data (http n) (url_of start_id i)))) ->
  faults d = [] ->
  exists st b1 b2 b3,
    crawl_kensetsu_databank_range http start_id end_id append num_threads schedule d
      = Some (Returned st) ∧
    flushes (trace st) = [(b1, None); (b2, None); (b3, None)] ∧
    length b1 = 32 ∧ length b2 = 32 ∧ length b3 = 1 ∧
    appended (trace st) = b1 ++ b2 ++ b3.
Proof.
  intros Hrange Hthreads Hsched Hfetch Hfaults.
  assert (Z.to_nat (end_id - start_id + 1) = 65) as Hn by lia.
  destruct (crawl_process http start_id end_id append num_threads schedule d)
    as (p & Hrun); [done | by rewrite Hn |].
  rewrite Hn in Hrun.
  destruct (all_records (settled http start_id schedule) (url_of start_id) (seq 0 65))
    as (Hmap & Hlen & Hrecs).
  { intros i Hi%elem_of_seq. apply Hfetch. lia. }
  { intros i r Hr. by apply fetched_record_link in Hr. }
  set (records := omap (fun i => record_of (settled http start_id schedule i)) (seq 0 65)) in *.
  destruct (accumulate_65 records) as (b1 & b2 & b3 & Hacc & Hb1 & Hb2 & Hb3 & Hcut);
    [by rewrite Hlen|].
  assert (total_ids start_id end_id ≠ 0%Z) as Htotal by (unfold total_ids; lia).
  destruct (process_success start_id end_id append Htotal records 0 (initial d) Hrecs)
    as (Hhealthy & Hdata & Hflushes); [by split|].
  rewrite <-Hmap in Hhealthy, Hdata, Hflushes.
  set (st := process start_id end_id append 0
                     (settled http start_id schedule <$> seq 0 65) (initial d)) in *.
  change (all_data (initial d)) with (@nil Py.dict) in Hdata, Hflushes.
  rewrite Hacc in Hdata, Hflushes. simpl in Hdata, Hflushes.
  destruct (final_flush_success append st Hhealthy) as (d' & Hfinal).
  { rewrite Hdata. by destruct b3. }
  exists (set_pool p (log (EvFlush (all_data st) None) (set_disk d' st))), b1, b2, b3.
  split; [by rewrite Hrun, final_flush_set_pool, Hfinal|].
  split; [trace_simpl; by rewrite Hflushes, Hdata|].
  repeat (split; [done|]). trace_simpl.
  rewrite <-Hcut. unfold st, records.
  rewrite process_appended, omap_fmap_compose. done.
Qed.

Lemma sixty_five_records_three_flushes_witness :
  exists st b1 b2 b3,
    crawl_kensetsu_databank_range Sample.steady 1 65 true 4 (reverse (seq 0 65)) Sample.fresh
      = Some (Returned st) ∧
    flushes (trace st) = [(b1, None); (b2, None); (b3, None)] ∧
    length b1 = 32 ∧ length b2 = 32 ∧ length b3 = 1 ∧
    appended (trace st) = b1 ++ b2 ++ b3.
Proof.
  apply (sixty_five_records_three_flushes
           Sample.steady 1 65 true 4 (reverse (seq 0 65)) Sample.fresh).
  - reflexivity.
  - reflexivity.
  - intros i Hi. apply elem_of_reverse, elem_of_seq. lia.
  - intros n i Hi. by eexists.
  - reflexivity.
Defined.

(** ** Flushes that fail *)

Section FailureFacts.
Variable http : nat -> string -> get_outcome.
Variables (start_id end_id : Z) (append : bool).

Local Abbreviation handle := (handle_result start_id end_id append).

(** An exception of the threshold flush is caught by the handler of the
    loop, which logs it; the batch is as it was handed to the sink. *)
Lemma handle_result_flush_raises i extracted st e d' :
  batch_size <= length (all_data (record_result start_id i extracted st)) ->
  append_or_create_excel (all_data (record_result start_id i extracted st)) append
                         (disk (record_result start_id i extracted st))
    = Raised e d' ->
  handle i (Ok extracted) st
  = log (EvErrorInThread e)
        (log (EvFlush (all_data (record_result start_id i extracted st)) (Some e))
             (set_disk d' (record_result start_id i extracted st))).
Proof.
  intros Hfull Hraise. unfold handle_result, try_body, flush_batch.
  rewrite (proj2 (Nat.leb_le _ _) Hfull), Hraise. done.
Qed.

(** An exception of the flush after the loop leaves the run. *)
Lemma final_flush_raises st e d' :
  all_data st ≠ [] ->
  append_or_create_excel (all_data st) append (disk st) = Raised e d' ->
  final_flush append st
  = Raised e (log (EvFlush (all_data st) (Some e)) (set_disk d' st)).
Proof.
  intros Hne Hraise. unfold final_flush. rewrite Hraise.
  by destruct (all_data st).
Qed.

Lemma final_flush_Raised st e st' :
  final_flush append st = Raised e st' ->
  exists d', all_data st ≠ [] ∧
             append_or_create_excel (all_data st) append (disk st) = Raised e d' ∧
             st' = log (EvFlush (all_data st) (Some e)) (set_disk d' st).
Proof.
  unfold final_flush. destruct (all_data st) as [|r l] eqn:E; [done|]. simpl.
  destruct (append_or_create_excel _ _ _) as [d'|e' d'] eqn:Hp; [done|].
  intros [= <- <-]. by exists d'.
Qed.

End FailureFacts.

(** C6, as amended. An exception raised by the sink is fatal only in the flush
    that follows the loop: there it leaves [crawl_kensetsu_databank_range],
    and on a pool that accepts the worker count nothing else does. Raised
    by a threshold flush inside the loop, it is caught by the handler of
    the loop and logged, and the pass ends normally with the batch as it
    was handed to the sink. *)
Theorem flush_failure_fatal_only_after_loop http start_id end_id append :
  (forall i extracted st e d',
     batch_size <= length (all_data (record_result start_id i extracted st)) ->
     append_or_create_excel (all_data (record_result start_id i extracted st)) append
                            (disk (record_result start_id i extracted st))
       = Raised e d' ->
     handle_result start_id end_id append i (Ok extracted) st
     = log (EvErrorInThread e)
           (log (EvFlush (all_data (record_result start_id i extracted st)) (Some e))
                (set_disk d' (record_result start_id i extracted st)))) ∧
  (forall num_threads schedule d st e d',
     (0 < num_threads)%Z ->
     pool_block http start_id end_id append schedule d = Some st ->
     all_data st ≠ [] ->
     append_or_create_excel (all_data st) append (disk st) = Raised e d' ->
     crawl_kensetsu_databank_range http start_id end_id append num_threads schedule d
     = Some (Raised e (log (EvFlush (all_data st) (Some e)) (set_disk d' st)))) ∧
  (forall num_threads schedule d e st',
     (0 < num_threads)%Z ->
     crawl_kensetsu_databank_range http start_id end_id append num_threads schedule d
     = Some (Raised e st') ->
     exists st d',
       pool_block http start_id end_id append schedule d = Some st ∧
       all_data st ≠ [] ∧
       append_or_create_excel (all_data st) append (disk st) = Raised e d' ∧
       st' = log (EvFlush (all_data st) (Some e)) (set_disk d' st)).
Proof.
  split; [|split].
  - intros. by apply handle_result_flush_raises.
  - intros num_threads schedule d st e d' Hthreads Hblock Hne Hraise.
    unfold crawl_kensetsu_databank_range, ThreadPoolExecutor.
    rewrite (proj2 (Z.leb_gt _ _)) by done. rewrite Hblock.
    by rewrite (final_flush_raises append st e d').
  - intros num_threads schedule d e st' Hthreads.
    unfold crawl_kensetsu_databank_range, ThreadPoolExecutor.
    rewrite (proj2 (Z.leb_gt _ _)) by done.
    destruct (pool_block _ _ _ _ _ _) as [st|]; [|done].
    intros [= Hfinal]. apply final_flush_Raised in Hfinal as (d' & ? & ? & ?).
    by exists st, d'.
Qed.

Lemma flush_failure_fatal_only_after_loop_witness :
  (logged (trace (handle_result 1 32 true 31 (Ok (Some Sample.record)) Sample.nearly_full))
     = [OSError]) ∧
  (exists st,
     crawl_kensetsu_databank_range Sample.steady 1 1 true 1 [0] Sample.failing
     = Some (Raised OSError st)).
Proof.
  split.
  - rewrite (proj1 (flush_failure_fatal_only_after_loop Sample.steady 1 32 true)
               31 (Some Sample.record) Sample.nearly_full OSError
               {| file := None; faults := [] |}).
    + reflexivity.
    + vm_compute. lia.
    + reflexivity.
  - eexists.
    eapply (proj1 (proj2 (flush_failure_fatal_only_after_loop Sample.steady 1 1 true))
              1%Z [0] Sample.failing _ OSError {| file := None; faults := [] |}).
    + reflexivity.
    + reflexivity.
    + discriminate.
    + reflexivity.
Defined.

(** C6 as stated fails on a run of 32 identifiers whose first write
    fails: the failure of the threshold flush is caught and logged, the
    batch is flushed again after the loop, and the run returns. *)
Lemma flush_failure_caught_counterexample :
  exists st,
    crawl_kensetsu_databank_range Sample.steady 1 32 true 1 (seq 0 32) Sample.failing
      = Some (Returned st) ∧
    (fun call => (length call.1, call.2)) <$> flushes (trace st)
      = [(32, Some OSError); (32, None)] ∧
    logged (trace st) = [OSError].
Proof. eexists. split; [vm_compute; reflexivity|]. by vm_compute. Qed.

Section RetainFacts.
Variable http : nat -> string -> get_outcome.
Variables (start_id end_id : Z) (append : bool).

Local Abbreviation handle := (handle_result start_id end_id append).

Lemma handle_result_trace_extends i res st :
  exists t, trace (handle i res st) = trace st ++ t.
Proof.
  unfold handle_result, try_body, flush_batch, report_progress, record_result.
  destruct res as [[[|pair record]|]|e]; simpl; repeat case_match; simplify_eq;
    simpl; rewrite <-?app_assoc; by eexists.
Qed.

Lemma loop_trace_extends indices : forall st st',
  loop http start_id end_id append indices st = Some st' ->
  exists t, trace st' = trace st ++ t.
Proof.
  induction indices as [|i indices IH]; intros st st'; simpl.
  - intros [= <-]. exists []. by rewrite app_nil_r.
  - unfold iteration. destruct (future_result http i (pool st)) as [[res p]|]; [|done].
    intros (t2 & ->)%IH.
    destruct (handle_result_trace_extends i res (set_pool p st)) as (t1 & ->).
    exists (t1 ++ t2). by rewrite <-app_assoc.
Qed.

Lemma final_flush_trace_extends st :
  exists t, trace (state_of (final_flush append st)) = trace st ++ t.
Proof.
  unfold final_flush. repeat case_match; simplify_eq; simpl; try by eexists.
  exists []. by rewrite app_nil_r.
Qed.

(** With a full batch in memory, a pass whose future gives a result
    hands the whole batch to the sink, together with the record it has
    just appended, if any. *)
Lemma handle_result_full_batch i extracted st :
  batch_size <= length (all_data st) ->
  exists ev more r tail,
    trace (handle i (Ok extracted) st)
    = trace st ++ ev :: EvFlush (all_data st ++ more) r :: tail ∧
    flushes [ev] = [].
Proof.
  intros Hfull.
  assert (forall more, (batch_size <=? length (all_data st ++ more)) = true) as Hfull'.
  { intros more. apply Nat.leb_le. rewrite length_app. lia. }
  unfold handle_result, try_body, flush_batch, report_progress, record_result.
  destruct extracted as [[|pair record]|]; simpl;
    rewrite ?Hfull', ?(proj2 (Nat.leb_le _ _) Hfull);
    repeat case_match; simplify_eq; simpl; rewrite <-?app_assoc; simpl;
    try (by eexists _, _, _, _);
    by (eexists _, [], _, _; rewrite app_nil_r).
Qed.

(** From a state with a full batch in memory, either the loop makes no
    flush attempt and keeps the batch, or its first flush attempt is on
    a batch that starts with the one in memory. *)
Lemma loop_next_flush indices : forall st st',
  batch_size <= length (all_data st) ->
  loop http start_id end_id append indices st = Some st' ->
  (exists t1, trace st' = trace st ++ t1 ∧ flushes t1 = [] ∧
              all_data st' = all_data st) ∨
  (exists t1 more r t2,
     trace st' = trace st ++ t1 ++ EvFlush (all_data st ++ more) r :: t2 ∧
     flushes t1 = []).
Proof.
  induction indices as [|i indices IH]; intros st st' Hfull; simpl.
  - intros [= <-]. left. exists []. by rewrite app_nil_r.
  - unfold iteration. destruct (future_result http i (pool st)) as [[res p]|]; [|done].
    destruct res as [extracted|e].
    + intros (t & ->)%loop_trace_extends. right.
      destruct (handle_result_full_batch i extracted (set_pool p st) Hfull)
        as (ev & more & r & tail & -> & Hev).
      exists [ev], more, r, (tail ++ t). split; [|done].
      simpl. by rewrite <-app_assoc.
    + change (handle i (Raise e) (set_pool p st))
        with (log (EvErrorInThread e) (set_pool p st)).
      intros Hloop. apply IH in Hloop; [|done].
      destruct Hloop as [(t1 & -> & Ht1 & ->)|(t1 & more & r & t2 & -> & Ht1)].
      * left. exists (EvErrorInThread e :: t1). simpl.
        by rewrite <-app_assoc.
      * right. exists (EvErrorInThread e :: t1), more, r, t2. simpl.
        by rewrite <-app_assoc.
Qed.

(** The same up to the end of the run: the flush after the loop is the
    next attempt when the loop makes none. *)
Lemma run_next_flush indices st st' :
  batch_size <= length (all_data st) ->
  loop http start_id end_id append indices st = Some st' ->
  exists t1 more r t2,
    trace (state_of (final_flush append st'))
    = trace st ++ t1 ++ EvFlush (all_data st ++ more) r :: t2 ∧
    flushes t1 = [].
Proof.
  intros Hfull Hloop.
  destruct (loop_next_flush indices st st' Hfull Hloop)
    as [(t1 & Htrace & Ht1 & Hdata)|(t1 & more & r & t2 & Htrace & Ht1)].
  - exists t1, []. rewrite app_nil_r.
    unfold final_flush. rewrite Hdata.
    destruct (all_data st) as [|r0 l] eqn:E; [simpl in Hfull; unfold batch_size in Hfull; lia|].
    simpl. destruct (append_or_create_excel _ _ _) as [d'|e d'];
      eexists _, []; simpl; by rewrite Htrace, <-app_assoc.
  - destruct (final_flush_trace_extends st') as (t & ->).
    exists t1, more, r, (t2 ++ t). rewrite Htrace, <-!app_assoc. done.
Qed.

End RetainFacts.

(** C10. When a threshold flush inside the loop raises, the batch in
    memory is not cleared: after the pass it is the batch that was handed
    to the sink. It is handed over again, extended by whatever records
    were appended since, in the next flush attempt of the run, which is a
    threshold flush of a later pass or, failing that, the flush after the
    loop. *)
Theorem failed_flush_keeps_batch
    http start_id end_id append i extracted st e d' :
  batch_size <= length (all_data (record_result start_id i extracted st)) ->
  append_or_create_excel (all_data (record_result start_id i extracted st)) append
                         (disk (record_result start_id i extracted st))
    = Raised e d' ->
  all_data (handle_result start_id end_id append i (Ok extracted) st)
    = all_data (record_result start_id i extracted st) ∧
  forall indices st',
    loop http start_id end_id append indices
         (handle_result start_id end_id append i (Ok extracted) st) = Some st' ->
    exists t1 more r t2,
      trace (state_of (final_flush append st'))
      = trace (handle_result start_id end_id append i (Ok extracted) st)
        ++ t1
        ++ EvFlush (all_data (record_result start_id i extracted st) ++ more) r :: t2 ∧
      flushes t1 = [].
Proof.
  intros Hfull Hraise.
  rewrite (handle_result_flush_raises start_id end_id append i extracted st e d' Hfull Hraise).
  split; [done|]. intros indices st' Hloop.
  match type of Hloop with
  | loop _ _ _ _ _ ?s = _ =>
      destruct (run_next_flush http start_id end_id append indices s st' Hfull Hloop)
        as (t1 & more & r & t2 & Htrace & Ht1)
  end.
  exists t1, more, r, t2. split; [exact Htrace | exact Ht1].
Qed.

Lemma failed_flush_keeps_batch_witness :
  all_data (handle_result 1 33 true 31 (Ok (Some Sample.record)) Sample.nearly_full)
    = replicate 32 Sample.record ∧
  flushes (trace (handle_result 1 33 true 31 (Ok (Some Sample.record)) Sample.nearly_full))
    = [(replicate 32 Sample.record, Some OSError)].
Proof.
  destruct (failed_flush_keeps_batch Sample.steady 1 33 true 31 (Some Sample.record)
              Sample.nearly_full OSError {| file := None; faults := [] |})
    as [Hkept _].
  - vm_compute. lia.
  - reflexivity.
  - split; [exact Hkept | reflexivity].
Defined.


(** * Further properties of the code *)

(** ** The page fetcher: outcomes *)

(** X1. The fetcher never lets a [RequestException] reach its caller,
    whether the GET or [raise_for_status] raised it, and it does not catch
    anything else: an exception of the GET that is no [RequestException]
    leaves the function as it is. *)
Theorem fetch_raises_no_RequestException get url e :
  (crawl_and_extract_data get url = Raise e -> is_RequestException e = false) ∧
  (get url = GetRaises e -> is_RequestException e = false ->
   crawl_and_extract_data get url = Raise e).
Proof.
  unfold crawl_and_extract_data, raise_for_status. split.
  - destruct (get url) as [e'|response].
    + destruct (is_RequestException e') eqn:E; [done|]. by intros [= <-].
    + by destruct ((400 <=? status_code response) && (status_code response <? 600))%Z.
  - by intros -> ->.
Qed.

Lemma fetch_raises_no_RequestException_witness :
  crawl_and_extract_data (fun _ => GetRaises RuntimeError) Sample.url = Raise RuntimeError.
Proof.
  apply (fetch_raises_no_RequestException (fun _ => GetRaises RuntimeError) Sample.url
           RuntimeError); reflexivity.
Defined.

(** X2. The fetcher returns [None] only for a [RequestException] of the
    GET or a response with status 4xx or 5xx: on any other response,
    1xx and 3xx included, and on any other exception of the GET, [None]
    is not what it returns. *)
Theorem fetch_None_iff get url :
  crawl_and_extract_data get url = Ok None <->
  (exists e, get url = GetRaises e ∧ is_RequestException e = true) ∨
  (exists r, get url = GetReturns r ∧ (400 <= status_code r < 600)%Z).
Proof.
  unfold crawl_and_extract_data, raise_for_status.
  destruct (get url) as [e'|response].
  - destruct (is_RequestException e') eqn:E; split.
    + intros _. left. by exists e'.
    + done.
    + done.
    + intros [(e & [= <-] & He)|(r & [=] & _)]. congruence.
  - destruct (400 <=? status_code response)%Z eqn:Hlo;
      destruct (status_code response <? 600)%Z eqn:Hhi; simpl; split; try done.
    + intros _. right. exists response. split; [done|]. lia.
    + intros [(e & [=] & _)|(r & [= <-] & Hr)]. lia.
    + intros [(e & [=] & _)|(r & [= <-] & Hr)]. lia.
    + intros [(e & [=] & _)|(r & [= <-] & Hr)]. lia.
Qed.

(** X3. The record of a parsed page is empty exactly when the page has no
    marked table or the table holds no row with both a header and a data
    cell. *)
Theorem extract_data_empty_iff url soup :
  extract_data url soup = [] <->
  (forall table, Soup.find_class "table" TABLE_CLASS soup = Some table ->
                 table_pairs table = []).
Proof.
  split; [|apply extract_data_empty].
  intros Hnil table Htable.
  destruct (table_pairs table) as [|pair pairs] eqn:Hpairs; [done|].
  rewrite (extract_data_table url soup table Htable) in Hnil by (by rewrite Hpairs).
  pose proof (dict_set_truthy LINK_COLUMN url (assign [] (table_pairs table))) as Ht.
  by rewrite Hnil in Ht.
Qed.

(** ** The page fetcher: the fields of a record *)

Lemma lstrip_starts s : starts_with_space (Py.lstrip s) = false.
Proof.
  induction s as [|c s IH]; simpl; [done|].
  destruct (Py.isspace c) eqn:E; [done|]. simpl. done.
Qed.

Lemma rstrip_ends s : ends_with_space (Py.rstrip s) = false.
Proof.
  induction s as [|c s IH]; simpl; [done|].
  destruct (Py.rstrip s) as [|c' r] eqn:E.
  - destruct (Py.isspace c) eqn:Hc; simpl; done.
  - simpl in *. done.
Qed.

Lemma rstrip_starts s :
  starts_with_space s = false -> starts_with_space (Py.rstrip s) = false.
Proof.
  destruct s as [|c s]; simpl; [done|]. intros Hc.
  destruct (Py.rstrip s); [by rewrite Hc|]. done.
Qed.

Lemma strip_trimmed s : trimmed (Py.strip s).
Proof.
  split; [apply rstrip_starts, lstrip_starts | apply rstrip_ends].
Qed.

Lemma lstrip_id s : starts_with_space s = false -> Py.lstrip s = s.
Proof. destruct s as [|c s]; simpl; [done|]. by intros ->. Qed.

Lemma rstrip_id s : ends_with_space s = false -> Py.rstrip s = s.
Proof.
  induction s as [|c s IH]; [done|].
  destruct s as [|c' s].
  - simpl. by intros ->.
  - intros Hs. change (Py.rstrip (String c (String c' s)))
      with (match Py.rstrip (String c' s) with
            | EmptyString => if Py.isspace c then EmptyString else String c EmptyString
            | r => String c r
            end).
    by rewrite IH.
Qed.

(** [strip] leaves a string that neither begins nor ends with
    whitespace, and changes nothing on such a string. *)
Theorem strip_fixpoint s :
  trimmed (Py.strip s) ∧ (trimmed s -> Py.strip s = s).
Proof.
  split; [apply strip_trimmed|].
  intros [Hstart Hend]. unfold Py.strip. rewrite (lstrip_id s Hstart).
  by apply rstrip_id.
Qed.

Lemma strip_fixpoint_witness : Py.strip "Key 1" = "Key 1".
Proof. apply (strip_fixpoint "Key 1"). by vm_compute. Defined.

Lemma elem_of_dict_set k v k0 v0 (d : Py.dict) :
  (k, v) ∈ Py.dict_set k0 v0 d -> (k, v) = (k0, v0) ∨ (k, v) ∈ d.
Proof.
  induction d as [|[k' v'] d IH]; simpl.
  - intros ->%list_elem_of_singleton. by left.
  - destruct (decide (k' = k0)) as [->|Hne]; rewrite !elem_of_cons; naive_solver.
Qed.

Lemma elem_of_assign k v (d : Py.dict) pairs :
  (k, v) ∈ assign d pairs -> (k, v) ∈ d ∨ (k, v) ∈ pairs.
Proof.
  revert d. induction pairs as [|[k0 v0] pairs IH]; intros d; [by left|].
  unfold assign in *. simpl. intros [Hd|Hp]%IH.
  - apply elem_of_dict_set in Hd as [->|Hd]; [right; apply elem_of_cons; by left | by left].
  - right. apply elem_of_cons. by right.
Qed.

Lemma table_pairs_trimmed table k v :
  (k, v) ∈ table_pairs table -> trimmed k ∧ trimmed v.
Proof.
  unfold table_pairs. intros (row & _ & Hrow)%list_elem_of_omap.
  unfold row_pair in Hrow.
  destruct (Soup.find "th" row), (Soup.find "td" row); simplify_eq.
  split; apply strip_trimmed.
Qed.

(** X5. In every record the fetcher returns, no field name begins or ends
    with whitespace, and no field value does either, the value of [link]
    apart (that one is the URL as it was passed in). *)
Theorem fetch_fields_trimmed get url record k v :
  crawl_and_extract_data get url = Ok (Some record) ->
  (k, v) ∈ record ->
  trimmed k ∧ (k ≠ LINK_COLUMN -> trimmed v).
Proof.
  intros (response & _ & ->)%crawl_and_extract_data_Some. unfold extract_data.
  destruct (Soup.find_class "table" TABLE_CLASS (content response)) as [table|];
    [|by intros ?%elem_of_nil].
  rewrite extract_rows_assign. fold (table_pairs table).
  assert ((k, v) ∈ assign [] (table_pairs table) -> trimmed k ∧ trimmed v) as Hpairs.
  { intros [?%elem_of_nil|Hin]%elem_of_assign; [done|].
    by apply (table_pairs_trimmed table). }
  destruct (Py.truthy _).
  - intros [[= -> ->]|Hin]%elem_of_dict_set.
    + split; [by vm_compute | done].
    + destruct (Hpairs Hin). by split.
  - intros Hin. destruct (Hpairs Hin). by split.
Qed.

Lemma fetch_fields_trimmed_witness : trimmed "Key 1" ∧ ("Key 1" ≠ LINK_COLUMN -> trimmed "Value 1").
Proof.
  apply (fetch_fields_trimmed
           (fun _ => GetReturns (Sample.ok (Sample.page Sample.two_rows)))
           Sample.url _ "Key 1" "Value 1" eq_refl).
  apply (bool_decide_unpack _). by vm_compute.
Defined.

(** X6. The [link] field is the last field of the record when no header
    of the table reads [link]; when one does, the record has no field
    beyond the headers and the URL sits where that header first occurred. *)
Theorem fetch_link_position get url response table :
  get url = GetReturns response ->
  raise_for_status response = Ok tt ->
  Soup.find_class "table" TABLE_CLASS (content response) = Some table ->
  table_pairs table ≠ [] ->
  exists record,
    crawl_and_extract_data get url = Ok (Some record) ∧
    (LINK_COLUMN ∉ (table_pairs table).*1 ->
     record = assign [] (table_pairs table) ++ [(LINK_COLUMN, url)]) ∧
    (LINK_COLUMN ∈ (table_pairs table).*1 ->
     Py.keys record = Py.keys (assign [] (table_pairs table))).
Proof.
  intros Hget Hstatus Htable Hpairs. eexists. split; [|split].
  - unfold crawl_and_extract_data. rewrite Hget, Hstatus.
    by rewrite (extract_data_table _ _ table).
  - intros Hfresh. apply dict_set_fresh. rewrite keys_assign.
    intros [?|?%elem_of_nil]; done.
  - intros Hin.
    assert (LINK_COLUMN ∈ Py.keys (assign [] (table_pairs table))) as Hkey
      by (apply keys_assign; by left).
    clear Hin. unfold Py.keys in *.
    induction (assign [] (table_pairs table)) as [|[k' v'] d IH]; simpl in *.
    + by apply elem_of_nil in Hkey.
    + destruct (decide (k' = LINK_COLUMN)) as [->|Hne]; [done|]. simpl. f_equal.
      apply IH. apply elem_of_cons in Hkey as [?|?]; [congruence|done].
Qed.

Lemma fetch_link_position_witness :
  exists record,
    crawl_and_extract_data (fun _ => GetReturns (Sample.ok (Sample.page Sample.link_rows)))
                           Sample.url = Ok (Some record) ∧
    Py.keys record = ["Key 1"; "link"].
Proof.
  destruct (fetch_link_position
              (fun _ => GetReturns (Sample.ok (Sample.page Sample.link_rows)))
              Sample.url (Sample.ok (Sample.page Sample.link_rows))
              (Sample.table Sample.link_rows) eq_refl eq_refl eq_refl)
    as (record & Hret & _ & Hkeys).
  - discriminate.
  - exists record. split; [exact Hret|]. rewrite Hkeys; [reflexivity|].
    apply (bool_decide_unpack _). by vm_compute.
Defined.

(** ** The spreadsheet sink: what a merge keeps *)

Lemma add_columns_prefix cols new : cols `prefix_of` Pandas.add_columns cols new.
Proof.
  unfold Pandas.add_columns. revert cols.
  induction new as [|x new IH]; intros cols; simpl; [done|].
  destruct (decide (x ∈ cols)); [apply IH|].
  etrans; [|apply IH]. by apply prefix_app_r.
Qed.

Lemma add_columns_absorb cols new :
  (forall x, x ∈ new -> x ∈ cols) -> Pandas.add_columns cols new = cols.
Proof.
  unfold Pandas.add_columns. induction new as [|x new IH]; intros Hall; simpl; [done|].
  rewrite decide_True by (apply Hall, elem_of_cons; by left).
  apply IH. intros y Hy. apply Hall, elem_of_cons. by right.
Qed.

Lemma keep_last_sublist c (l : list Py.dict) : Pandas.keep_last c l `sublist_of` l.
Proof.
  induction l as [|r l IH]; simpl; [done|].
  destruct (decide _); by constructor.
Qed.

Lemma keep_last_nonempty c (l : list Py.dict) : l ≠ [] -> Pandas.keep_last c l ≠ [].
Proof.
  intros Hl Hnil. destruct l as [|r l]; [done|].
  assert (Py.dict_get c r ∈ Py.dict_get c <$> Pandas.keep_last c (r :: l)) as Hin.
  { apply keep_last_keys. simpl. apply elem_of_cons. by left. }
  rewrite Hnil in Hin. by apply elem_of_nil in Hin.
Qed.

(** The table a merge pass writes. *)
Lemma merge_pass_table data existing d d' :
  file d = Some existing ->
  append_or_create_excel data true d = Returned d' ->
  exists rows',
    file d' = Some {| Pandas.columns :=
                        Pandas.columns (Pandas.concat existing (Pandas.of_records data));
                      Pandas.rows := rows' |} ∧
    faults d' = tail (faults d) ∧
    ((Pandas.empty (Pandas.concat existing (Pandas.of_records data)) = true ∧
      rows' = Pandas.rows existing ++ data) ∨
     (Pandas.empty (Pandas.concat existing (Pandas.of_records data)) = false ∧
      LINK_COLUMN ∈ Pandas.columns (Pandas.concat existing (Pandas.of_records data)) ∧
      rows' = Pandas.keep_last LINK_COLUMN (Pandas.rows existing ++ data))).
Proof.
  intros Hfile. unfold append_or_create_excel. rewrite Hfile.
  unfold Pandas.drop_duplicates. destruct (Pandas.empty _) eqn:Hempty.
  - intros [Hd' Hf]%to_excel_Returned. eexists. split; [exact Hd'|].
    split; [done|]. by left.
  - destruct (decide _) as [Hcol|]; [|done].
    intros [Hd' Hf]%to_excel_Returned. eexists. split; [exact Hd'|].
    split; [done|]. by right.
Qed.

(** X7. A merge pass that returns invents no row and reorders none (the
    rows written are a subsequence of the old rows followed by the batch),
    keeps every link value of the old table and of the batch, and keeps
    the old columns in place, new ones going after them. *)
Theorem merge_pass_conserves data existing d d' :
  file d = Some existing ->
  append_or_create_excel data true d = Returned d' ->
  exists table,
    file d' = Some table ∧
    Pandas.rows table `sublist_of` (Pandas.rows existing ++ data) ∧
    (forall l, l ∈ link_of <$> Pandas.rows table
               <-> l ∈ link_of <$> (Pandas.rows existing ++ data)) ∧
    Pandas.columns existing `prefix_of` Pandas.columns table.
Proof.
  intros Hfile Hret.
  destruct (merge_pass_table data existing d d' Hfile Hret)
    as (rows' & Hd' & _ & [[_ ->]|(_ & _ & ->)]);
    eexists; (split; [exact Hd'|]); simpl.
  - split; [done|]. split; [done|]. apply add_columns_prefix.
  - split; [apply keep_last_sublist|]. split; [|apply add_columns_prefix].
    intros l. apply keep_last_keys.
Qed.

Lemma merge_pass_conserves_witness :
  exists table,
    file {| file := Some {| Pandas.columns := ["a"; "link"];
                            Pandas.rows := [[("a", "2"); ("link", "u2")];
                                            [("a", "3"); ("link", "u1")]] |};
            faults := [] |} = Some table ∧
    Pandas.rows table `sublist_of` (Pandas.rows (Pandas.of_records [[("a", "0"); ("link", "u1")]])
                                    ++ Sample.batch) ∧
    (forall l, l ∈ link_of <$> Pandas.rows table
               <-> l ∈ link_of <$> (Pandas.rows (Pandas.of_records [[("a", "0"); ("link", "u1")]])
                                    ++ Sample.batch)) ∧
    Pandas.columns (Pandas.of_records [[("a", "0"); ("link", "u1")]])
      `prefix_of` Pandas.columns table.
Proof.
  apply (merge_pass_conserves Sample.batch
           (Pandas.of_records [[("a", "0"); ("link", "u1")]]) Sample.used).
  - reflexivity.
  - by vm_compute.
Defined.

(** X8. Persisting again a batch of linked records that a merge pass has
    just written changes nothing: the table of the second pass is the
    table of the first, rows and columns. This is for a faithful table on
    the disk and a batch of plain texts, so that the table of the first
    pass is faithful and the second pass reads it as it was written, and
    for a second write that succeeds. *)
Theorem merge_pass_fixpoint batch existing d d1 :
  Forall has_link batch ->
  Forall Excel.plain_record batch ->
  file d = Some existing ->
  Excel.faithful existing ->
  append_or_create_excel batch true d = Returned d1 ->
  faults d1 = [] ->
  faithful_disk d1 ∧
  append_or_create_excel batch true d1 = Returned d1.
Proof.
  intros Hlinks Hplain Hfile Hfaithful Hret Hfaults.
  split.
  { apply (persist_faithful batch true d d1); [|by apply linked_plain_records|done].
    unfold faithful_disk. by rewrite Hfile. }
  destruct (merge_pass_table batch existing d d1 Hfile Hret)
    as (rows' & Hd1 & _ & Hcase).
  assert (d1 = {| file := Some {| Pandas.columns :=
                                    Pandas.columns (Pandas.concat existing (Pandas.of_records batch));
                                  Pandas.rows := rows' |};
                  faults := [] |}) as Hd1'.
  { destruct d1 as [f1 fs1]. simpl in *. by subst. }
  assert (Pandas.add_columns
            (Pandas.columns (Pandas.concat existing (Pandas.of_records batch)))
            (Pandas.columns (Pandas.of_records batch))
          = Pandas.columns (Pandas.concat existing (Pandas.of_records batch))) as Hcols.
  { apply add_columns_absorb. intros x Hx. apply add_columns_elem_of. by right. }
  destruct Hcase as [[Hempty ->]|(Hempty & Hcol & ->)].
  - (* nothing was dropped: the batch is empty, or it has no column *)
    destruct (decide (batch = [])) as [->|Hne].
    + rewrite Hd1'. unfold append_or_create_excel. simpl.
      unfold Pandas.drop_duplicates, Pandas.concat. simpl.
      unfold Pandas.empty, Pandas.concat in Hempty. simpl in Hempty.
      rewrite !app_nil_r in *. unfold Pandas.empty. simpl. rewrite Hempty.
      rewrite to_excel_no_fault by done. done.
    + exfalso. pose proof (has_link_columns batch Hne Hlinks) as Hin.
      unfold Pandas.empty in Hempty. apply orb_true_iff in Hempty as [Hr|Hc].
      * simpl in Hr. destruct batch; [done|]. by destruct (Pandas.rows existing).
      * assert (LINK_COLUMN ∈ Pandas.columns (Pandas.concat existing (Pandas.of_records batch)))
          as Hin' by (apply add_columns_elem_of; by right).
        destruct (Pandas.columns (Pandas.concat existing (Pandas.of_records batch)));
          [by apply elem_of_nil in Hin' | done].
  - clear Hd1 Hfaults. subst d1.
    erewrite persist_merge_keyed; [|reflexivity|reflexivity|].
    + unfold Pandas.concat, Pandas.of_records in Hcols |- *. simpl in Hcols |- *.
      rewrite Hcols, keep_last_twice. done.
    + unfold Pandas.concat, Pandas.of_records in Hcols, Hcol |- *.
      simpl in Hcols, Hcol |- *. by rewrite Hcols.
Qed.

Lemma merge_pass_fixpoint_witness :
  append_or_create_excel Sample.plain_batch true
    {| file := Some {| Pandas.columns := ["a"; "link"];
                       Pandas.rows := [[("a", "y0"); ("link", "u0")];
                                       [("a", "x2"); ("link", "u2")];
                                       [("a", "x3"); ("link", "u1")]] |};
       faults := [] |}
  = Returned
    {| file := Some {| Pandas.columns := ["a"; "link"];
                       Pandas.rows := [[("a", "y0"); ("link", "u0")];
                                       [("a", "x2"); ("link", "u2")];
                                       [("a", "x3"); ("link", "u1")]] |};
       faults := [] |}.
Proof.
  apply (merge_pass_fixpoint Sample.plain_batch
           {| Pandas.columns := ["a"; "link"];
              Pandas.rows := [[("a", "x0"); ("link", "u1")];
                              [("a", "y0"); ("link", "u0")]] |} Sample.kept).
  - apply (bool_decide_unpack _). by vm_compute.
  - apply (bool_decide_unpack _). by vm_compute.
  - reflexivity.
  - apply (bool_decide_unpack _). by vm_compute.
  - by vm_compute.
  - reflexivity.
Defined.


(** ** The spreadsheet sink: errors and shape *)

(** X9. The sink raises [KeyError] exactly in a merge pass whose merged
    table has rows and columns but no [link] column; nothing has been
    written then. A batch with a linked record never meets this. *)
Theorem persist_KeyError_iff data append d d' :
  (append_or_create_excel data append d = Raised KeyError d' <->
   append = true ∧ d' = d ∧
   exists existing,
     file d = Some existing ∧
     Pandas.empty (Pandas.concat existing (Pandas.of_records data)) = false ∧
     LINK_COLUMN ∉ Pandas.columns (Pandas.concat existing (Pandas.of_records data))) ∧
  ((exists r, r ∈ data ∧ has_link r) ->
   append_or_create_excel data append d ≠ Raised KeyError d').
Proof.
  assert (forall df, to_excel df d ≠ Raised KeyError d') as Hwrite.
  { intros df [? _]%to_excel_Raised. done. }
  assert (append_or_create_excel data append d = Raised KeyError d' <->
          append = true ∧ d' = d ∧
          exists existing,
            file d = Some existing ∧
            Pandas.empty (Pandas.concat existing (Pandas.of_records data)) = false ∧
            LINK_COLUMN ∉ Pandas.columns (Pandas.concat existing (Pandas.of_records data)))
    as Hiff.
  { unfold append_or_create_excel, Pandas.drop_duplicates.
    destruct append; [|split; [by intros ?%Hwrite | by intros [? _]]].
    destruct (file d) as [existing|];
      [|split; [by intros ?%Hwrite | by intros (_ & _ & ? & ? & _)]].
    destruct (Pandas.empty _) eqn:Hempty.
    - split; [by intros ?%Hwrite|]. intros (_ & _ & ? & [= <-] & ? & _). congruence.
    - destruct (decide _) as [Hin|Hin].
      + split; [by intros ?%Hwrite|]. by intros (_ & _ & ? & [= <-] & _ & ?).
      + split; [intros [= <-]; eauto 6 | by intros (_ & -> & _)]. }
  split; [exact Hiff|].
  intros (r & Hr & Hlink) (_ & _ & existing & _ & _ & Hcol)%Hiff.
  apply Hcol, add_columns_elem_of. right. by apply (has_link_column data r).
Qed.

Lemma persist_KeyError_iff_witness :
  append_or_create_excel Sample.batch true Sample.used
  ≠ Raised KeyError Sample.used.
Proof.
  apply (persist_KeyError_iff Sample.batch true Sample.used Sample.used).
  exists [("a", "1"); ("link", "u1")]. split.
  - apply (bool_decide_unpack _). by vm_compute.
  - by eexists.
Defined.

(** X10. The table the sink writes has every cell in one of its columns,
    provided the table it read had. *)
Theorem persist_well_formed data append d d' :
  (forall existing, file d = Some existing -> Pandas.well_formed existing) ->
  append_or_create_excel data append d = Returned d' ->
  exists table, file d' = Some table ∧ Pandas.well_formed table.
Proof.
  intros Hwf. unfold append_or_create_excel.
  destruct append, (file d) as [existing|] eqn:Hfile;
    try (intros [Hd' _]%to_excel_Returned; eexists; split;
         [exact Hd' | apply of_records_well_formed]).
  pose proof (concat_well_formed existing (Pandas.of_records data)
                (Hwf existing eq_refl) (of_records_well_formed data)) as Hcc.
  unfold Pandas.drop_duplicates. destruct (Pandas.empty _).
  - intros [Hd' _]%to_excel_Returned. by eexists.
  - destruct (decide _); [|done].
    intros [Hd' _]%to_excel_Returned. eexists. split; [exact Hd'|].
    unfold Pandas.well_formed in *. simpl.
    apply Forall_forall. intros r Hr.
    apply (proj1 (Forall_forall _ _) Hcc), (keep_last_elem_of LINK_COLUMN), Hr.
Qed.

Lemma persist_well_formed_witness :
  exists table,
    file {| file := Some {| Pandas.columns := ["a"; "link"];
                            Pandas.rows := [[("a", "2"); ("link", "u2")];
                                            [("a", "3"); ("link", "u1")]] |};
            faults := [] |} = Some table ∧
    Pandas.well_formed table.
Proof.
  apply (persist_well_formed Sample.batch true Sample.used).
  - intros existing [= <-]. apply (of_records_well_formed [[("a", "0"); ("link", "u1")]]).
  - by vm_compute.
Defined.


(** ** The range crawler: the disk changes through the sink only *)

Lemma persisted_flushes t : persisted t = returned_calls (flushes t).
Proof.
  unfold persisted, returned_calls, flushes.
  induction t as [|ev t IH]; [done|].
  change (ev :: t) with ([ev] ++ t). rewrite !omap_app, IH. f_equal.
  by destruct ev as [| |b [e|]| |].
Qed.

Section StepFacts.
Variable http : nat -> string -> get_outcome.
Variables (start_id end_id : Z) (append : bool).

Local Abbreviation handle := (handle_result start_id end_id append).

(** One pass of the loop leaves the disk alone or makes one call of the
    sink, on a batch that has reached the threshold. *)
Lemma handle_result_step i res st :
  (disk (handle i res st) = disk st ∧
   flushes (trace (handle i res st)) = flushes (trace st)) ∨
  (exists batch,
     batch_size <= length batch ∧
     disk (handle i res st)
       = state_of (append_or_create_excel batch append (disk st)) ∧
     flushes (trace (handle i res st))
       = flushes (trace st)
         ++ [(batch, raised_of (append_or_create_excel batch append (disk st)))]).
Proof.
  unfold handle_result, try_body, flush_batch, report_progress, record_result.
  destruct res as [[[|pair record]|]|e]; simpl;
    repeat case_match; simplify_eq; trace_simpl;
    try (by left);
    right; eexists; (split; [by apply Nat.leb_le|]);
    match goal with H : append_or_create_excel _ _ _ = _ |- _ => rewrite H end;
    by trace_simpl.
Qed.

(** The flush after the loop makes no call, or one call on a batch that
    is not empty. *)
Lemma final_flush_step st :
  (state_of (final_flush append st) = st) ∨
  (all_data st ≠ [] ∧
   disk (state_of (final_flush append st))
     = state_of (append_or_create_excel (all_data st) append (disk st)) ∧
   flushes (trace (state_of (final_flush append st)))
     = flushes (trace st)
       ++ [(all_data st,
            raised_of (append_or_create_excel (all_data st) append (disk st)))]).
Proof.
  unfold final_flush. destruct (all_data st) as [|r l] eqn:E; [by left|].
  right. split; [done|]. simpl.
  destruct (append_or_create_excel _ _ _); by trace_simpl.
Qed.

(** A property of the disk and of the calls of the sink that every call
    on a batch that is not empty preserves holds along the loop. *)
Lemma loop_disk_invariant (J : Disk -> list (list Py.dict * option exn) -> Prop) :
  (forall d calls batch,
     J d calls -> batch ≠ [] ->
     J (state_of (append_or_create_excel batch append d))
       (calls ++ [(batch, raised_of (append_or_create_excel batch append d))])) ->
  forall indices st st',
    loop http start_id end_id append indices st = Some st' ->
    J (disk st) (flushes (trace st)) ->
    J (disk st') (flushes (trace st')).
Proof.
  intros Hstep. induction indices as [|i indices IH]; intros st st'; simpl.
  - by intros [= <-].
  - unfold iteration. destruct (future_result http i (pool st)) as [[res p]|]; [|done].
    intros Hloop HJ. apply (IH _ _ Hloop).
    destruct (handle_result_step i res (set_pool p st))
      as [[-> ->]|(batch & Hfull & -> & ->)]; [done|].
    apply Hstep; [done|]. intros ->. simpl in Hfull. unfold batch_size in Hfull. lia.
Qed.

(** The same for the whole run. *)
Lemma run_disk_invariant (J : Disk -> list (list Py.dict * option exn) -> Prop)
    num_threads schedule d out :
  (forall d calls batch,
     J d calls -> batch ≠ [] ->
     J (state_of (append_or_create_excel batch append d))
       (calls ++ [(batch, raised_of (append_or_create_excel batch append d))])) ->
  J d [] ->
  crawl_kensetsu_databank_range http start_id end_id append num_threads schedule d
    = Some out ->
  J (disk (state_of out)) (flushes (trace (state_of out))).
Proof.
  intros Hstep HJ. unfold crawl_kensetsu_databank_range.
  destruct (ThreadPoolExecutor num_threads); [|by intros [= <-]].
  destruct (pool_block http start_id end_id append schedule d) as [st|] eqn:Hblock; [|done].
  intros [= <-]. unfold pool_block in Hblock.
  apply (loop_disk_invariant J Hstep) in Hblock; [|done].
  destruct (final_flush_step st) as [->|(Hne & -> & ->)]; [done|].
  by apply Hstep.
Qed.

End StepFacts.

(** ** The range crawler: accounting *)

Section AccountFacts.
Variable http : nat -> string -> get_outcome.
Variables (start_id end_id : Z) (append : bool).

Lemma loop_accounted indices : forall st st',
  loop http start_id end_id append indices st = Some st' ->
  accounted st -> accounted st'.
Proof.
  induction indices as [|i indices IH]; intros st st'; simpl; [by intros [= <-]|].
  unfold iteration. destruct (future_result http i (pool st)) as [[res p]|]; [|done].
  intros Hloop Hst. apply (IH _ _ Hloop).
  by apply handle_result_accounted.
Qed.

Lemma loop_threshold_calls indices : forall st st',
  loop http start_id end_id append indices st = Some st' ->
  Forall (fun call => batch_size <= length call.1) (flushes (trace st)) ->
  Forall (fun call => batch_size <= length call.1) (flushes (trace st')).
Proof.
  induction indices as [|i indices IH]; intros st st'; simpl; [by intros [= <-]|].
  unfold iteration. destruct (future_result http i (pool st)) as [[res p]|]; [|done].
  intros Hloop Hst. apply (IH _ _ Hloop).
  destruct (handle_result_step start_id end_id append i res (set_pool p st))
    as [[_ ->]|(batch & Hfull & _ & ->)]; [done|].
  apply Forall_app. split; [done|]. by constructor.
Qed.

End AccountFacts.

(** X13. When the run returns, every record it appended has been handed
    to the sink in a call that returned, once and in the order of the
    appends: the batches of the successful flushes, put end to end, are
    the appended records. This holds whatever the schedule and however
    many threshold flushes failed on the way. *)
Theorem returned_run_persisted_all
    http start_id end_id append num_threads schedule d st :
  crawl_kensetsu_databank_range http start_id end_id append num_threads schedule d
    = Some (Returned st) ->
  concat (persisted (trace st)) = appended (trace st).
Proof.
  unfold crawl_kensetsu_databank_range.
  destruct (ThreadPoolExecutor num_threads); [|done].
  destruct (pool_block http start_id end_id append schedule d) as [st0|] eqn:Hblock; [|done].
  apply (loop_accounted http start_id end_id append) in Hblock; [|done].
  unfold accounted in Hblock. unfold final_flush.
  destruct (all_data st0) as [|r l] eqn:E; simpl.
  - intros [= <-]. by rewrite Hblock, app_nil_r.
  - destruct (append_or_create_excel _ _ _); [|done].
    intros [= <-]. trace_simpl. by rewrite Hblock.
Qed.

Lemma returned_run_persisted_all_witness :
  concat (persisted (trace (state_of (default (Returned (initial Sample.failing))
            (crawl_kensetsu_databank_range Sample.steady 1 32 true 1 (seq 0 32)
                                           Sample.failing)))))
  = appended (trace (state_of (default (Returned (initial Sample.failing))
            (crawl_kensetsu_databank_range Sample.steady 1 32 true 1 (seq 0 32)
                                           Sample.failing)))).
Proof.
  apply (returned_run_persisted_all Sample.steady 1 32 true 1 (seq 0 32) Sample.failing).
  by vm_compute.
Defined.

(** X14. The sink is never called on an empty batch: every call made
    inside the loop is on at least 32 records, and the run makes at most
    one more call, after the loop, on a batch that is not empty. *)
Theorem sink_calls_sizes http start_id end_id append num_threads schedule d out :
  crawl_kensetsu_databank_range http start_id end_id append num_threads schedule d
    = Some out ->
  exists calls final,
    flushes (trace (state_of out)) = calls ++ final ∧
    Forall (fun call => batch_size <= length call.1) calls ∧
    length final <= 1 ∧
    Forall (fun call => call.1 ≠ []) final.
Proof.
  unfold crawl_kensetsu_databank_range.
  destruct (ThreadPoolExecutor num_threads).
  - destruct (pool_block http start_id end_id append schedule d) as [st0|] eqn:Hblock; [|done].
    intros [= <-].
    apply (loop_threshold_calls http start_id end_id append) in Hblock; [|by constructor].
    destruct (final_flush_step append st0) as [->|(Hne & _ & ->)].
    + exists (flushes (trace st0)), []. rewrite app_nil_r. repeat split; (done || simpl; lia).
    + eexists _, [_]. split; [done|]. split; [done|]. split; [done|]. by constructor.
  - intros [= <-]. exists [], []. repeat split; (done || simpl; lia).
Qed.

Lemma sink_calls_sizes_witness :
  exists calls final,
    flushes (trace (state_of (default (Returned (initial Sample.fresh))
              (crawl_kensetsu_databank_range Sample.steady 1 33 true 1 (seq 0 33)
                                             Sample.fresh))))
      = calls ++ final ∧
    Forall (fun call => batch_size <= length call.1) calls ∧
    length final <= 1 ∧
    Forall (fun call => call.1 ≠ []) final.
Proof.
  apply (sink_calls_sizes Sample.steady 1 33 true 1 (seq 0 33) Sample.fresh).
  by vm_compute.
Defined.

(** ** The range crawler: failures, exceptions and blocked runs *)

Section OutcomeFacts.
Variable http : nat -> string -> get_outcome.
Variables (start_id end_id : Z) (append : bool).

Local Abbreviation handle := (handle_result start_id end_id append).
Local Abbreviation run := (process start_id end_id append).

Lemma handle_result_pool i res st : pool (handle i res st) = pool st.
Proof.
  unfold handle_result, try_body, flush_batch, report_progress, record_result.
  destruct res as [[[|pair record]|]|e]; simpl; repeat case_match; by simplify_eq.
Qed.

Lemma handle_result_error_links i res st :
  error_links (handle i res st)
  = error_links st ++ option_list (failure_of (url_of start_id i) res).
Proof.
  unfold handle_result, try_body, flush_batch, report_progress, record_result.
  destruct res as [[[|pair record]|]|e]; simpl; repeat case_match; simplify_eq;
    simpl; by rewrite ?app_nil_r.
Qed.

Lemma process_error_links (f : nat -> fetched) m : forall k st,
  error_links (run k (f <$> seq k m) st)
  = error_links st ++ omap (fun i => failure_of (url_of start_id i) (f i)) (seq k m).
Proof.
  induction m as [|m IH]; intros k st.
  - simpl. by rewrite app_nil_r.
  - change (seq k (S m)) with ([k] ++ seq (S k) m).
    rewrite omap_app.
    change (run k (f <$> [k] ++ seq (S k) m) st)
      with (run (S k) (f <$> seq (S k) m) (handle k (f k) st)).
    rewrite IH, handle_result_error_links, <-app_assoc. f_equal.
Qed.

Lemma final_flush_error_links st :
  error_links (state_of (final_flush append st)) = error_links st.
Proof. unfold final_flush. repeat case_match; by simplify_eq. Qed.

(** A future that is obtained holds the fetch of its URL, completed at
    the rank of its task; the events up to that point are consumed. *)
Lemma await_Some urls i url evs : forall done p res p',
  pool_after http urls done p ->
  urls !! i = Some url ->
  await http i evs p = Some (res, p') ->
  exists evs1,
    evs = evs1 ++ pending p' ∧
    pool_after http urls (done ++ evs1) p' ∧
    i ∈ done ++ evs1 ∧
    res = crawl_and_extract_data (http (rank i (done ++ evs1))) url.
Proof.
  induction evs as [|j evs IH]; intros done p res p' Hp Hurl;
    pose proof Hp as (Hclock & Htasks & Hfut);
    simpl; rewrite Hfut, (futures_after_lookup http urls done i url Hurl);
    destruct (decide (i ∈ done)) as [Hd|Hd]; try done.
  - intros [= <- <-]. exists []. rewrite !app_nil_r. by repeat split.
  - intros [=].
  - intros [= <- <-]. exists []. rewrite !app_nil_r. by repeat split.
  - intros (evs1 & Hevs & Hp' & Hin & Hres)%(IH (done ++ [j]));
      [|by apply complete_pool_after|done].
    exists (j :: evs1). rewrite <-!app_assoc in *. simpl in *.
    split; [by rewrite Hevs|]. split; [done|]. by split.
Qed.

(** A property of the orchestrator that every pass on a fetch result
    preserves holds along the loop. *)
Lemma loop_fetched_invariant (I : Crawler -> Prop) urls :
  (forall i n url p st,
     I st -> I (handle i (crawl_and_extract_data (http n) url) (set_pool p st))) ->
  forall indices st st' done,
    pool_after http urls done (pool st) ->
    Forall (fun i => is_Some (urls !! i)) indices ->
    loop http start_id end_id append indices st = Some st' ->
    I st -> I st'.
Proof.
  intros Hstep. induction indices as [|i indices IH]; intros st st' done Hpool Hurls; simpl.
  - by intros [= <-].
  - apply Forall_cons in Hurls as [[url Hurl] Hurls].
    unfold iteration, future_result.
    destruct (await http i (pending (pool st)) (pool st)) as [[res p]|] eqn:Haw; [|done].
    destruct (await_Some urls i url _ done _ _ _ Hpool Hurl Haw)
      as (evs1 & _ & Hpool' & _ & ->).
    intros Hloop Hst.
    apply (IH _ _ (done ++ evs1)) in Hloop; [done| |done|by apply Hstep].
    by rewrite handle_result_pool.
Qed.

(** The records in memory all come from fetches, so all have their link. *)
Lemma handle_result_linked i n url p st :
  Forall has_link (all_data st) ->
  Forall has_link
    (all_data (handle i (crawl_and_extract_data (http n) url) (set_pool p st))).
Proof.
  intros Hst.
  destruct (crawl_and_extract_data (http n) url) as [[[|pair record]|]|e] eqn:Hfetch;
    unfold handle_result, try_body, flush_batch, report_progress, record_result;
    simpl; repeat case_match; simplify_eq; simpl; try done.
  all: apply Forall_app; split; [done|]; constructor; [|done].
  all: unfold has_link; erewrite fetched_record_link; [by eexists|by rewrite Hfetch].
Qed.

End OutcomeFacts.

Lemma range_urls_defined start_id end_id :
  Forall (fun i => is_Some (((fun id => BASE_URL +:+ Py.str id)
                               <$> id_range start_id end_id) !! i))
         (seq 0 (length ((fun id => BASE_URL +:+ Py.str id) <$> id_range start_id end_id))).
Proof.
  apply Forall_forall. intros i Hi%elem_of_seq.
  apply lookup_lt_is_Some. lia.
Qed.

(** X15. When every task completes, the failure list at the end of the
    run is, in ascending order of identifier, the URLs of the identifiers
    whose fetch returned [None] or an empty record; an identifier whose
    future raised is in neither list. *)
Theorem failure_list_exact http start_id end_id append num_threads schedule d :
  (0 < num_threads)%Z ->
  (forall i, i < Z.to_nat (end_id - start_id + 1) -> i ∈ schedule) ->
  exists out,
    crawl_kensetsu_databank_range http start_id end_id append num_threads schedule d
      = Some out ∧
    error_links (state_of out)
      = omap (fun i => failure_of (url_of start_id i) (settled http start_id schedule i))
             (seq 0 (Z.to_nat (end_id - start_id + 1))).
Proof.
  intros Hthreads Hall.
  destruct (crawl_process http start_id end_id append num_threads schedule d Hthreads Hall)
    as (p & Hrun).
  eexists. split; [exact Hrun|].
  rewrite final_flush_set_pool, state_of_outcome_map.
  change (error_links (set_pool p ?s)) with (error_links s).
  rewrite final_flush_error_links.
  by rewrite (process_error_links start_id end_id append (settled http start_id schedule)).
Qed.

Lemma failure_list_exact_witness :
  exists out,
    crawl_kensetsu_databank_range Sample.server 100 102 true 2 [2; 0; 1] Sample.fresh
      = Some out ∧
    error_links (state_of out)
      = omap (fun i => failure_of (url_of 100 i) (settled Sample.server 100 [2; 0; 1] i))
             (seq 0 3).
Proof.
  apply (failure_list_exact Sample.server 100 102 true 2 [2; 0; 1] Sample.fresh).
  - reflexivity.
  - intros i Hi. change (i < 3) in Hi.
    destruct i as [|[|[|i]]]; [apply (bool_decide_unpack _); by vm_compute..|lia].
Defined.

(** The merge of a batch that is not empty and whose records have their
    link finds the [link] column, whatever the table read. *)
Lemma merge_linked_Ok batch existing :
  batch ≠ [] -> Forall has_link batch ->
  exists t, Pandas.drop_duplicates LINK_COLUMN
              (Pandas.concat existing (Pandas.of_records batch)) = Ok t.
Proof.
  intros Hne Hlinks. unfold Pandas.drop_duplicates.
  destruct (Pandas.empty _); [by eexists|].
  rewrite decide_True; [by eexists|].
  apply add_columns_elem_of. right. by apply has_link_columns.
Qed.

(** One pass of the loop makes no call of the sink, or one call on the
    batch in memory extended by the record of its future. *)
Lemma handle_result_call start_id end_id append i res st :
  flushes (trace (handle_result start_id end_id append i res st)) = flushes (trace st) ∨
  exists r,
    flushes (trace (handle_result start_id end_id append i res st))
    = flushes (trace st) ++ [(all_data st ++ option_list (record_of res), r)].
Proof.
  unfold handle_result, try_body, flush_batch, report_progress, record_result.
  destruct res as [[[|pair record]|]|e]; simpl; rewrite ?app_nil_r;
    repeat case_match; simplify_eq; trace_simpl;
    (by left) || (right; by eexists).
Qed.

Section BatchFacts.
Variable http : nat -> string -> get_outcome.
Variables (start_id end_id : Z) (append : bool).

Lemma handle_result_batches i n url p st :
  Forall has_link (all_data st)
  ∧ Forall (fun call => Forall has_link call.1) (flushes (trace st)) ->
  Forall has_link
    (all_data (handle_result start_id end_id append i
                 (crawl_and_extract_data (http n) url) (set_pool p st)))
  ∧ Forall (fun call => Forall has_link call.1)
      (flushes (trace (handle_result start_id end_id append i
                         (crawl_and_extract_data (http n) url) (set_pool p st)))).
Proof.
  intros [Hdata Hcalls]. split; [by apply handle_result_linked|].
  destruct (handle_result_call start_id end_id append i
              (crawl_and_extract_data (http n) url) (set_pool p st)) as [->|(r & ->)];
    [done|].
  apply Forall_app. split; [done|]. constructor; [|done]. simpl.
  apply Forall_app. split; [done|].
  destruct (record_of (crawl_and_extract_data (http n) url)) as [record|] eqn:Hrec;
    [|constructor].
  constructor; [|done]. unfold has_link.
  rewrite (fetched_record_link _ _ _ Hrec). by eexists.
Qed.

End BatchFacts.

(** X16. Every batch a run hands to the sink is made of records that
    carry their link and is not empty, so the merge always finds the
    [link] column: whatever table the file holds, [drop_duplicates] does
    not raise its [KeyError] in a run. *)
Theorem run_batches_linked http start_id end_id append num_threads schedule d out :
  crawl_kensetsu_databank_range http start_id end_id append num_threads schedule d
    = Some out ->
  Forall (fun call =>
            call.1 ≠ [] ∧ Forall has_link call.1 ∧
            forall existing,
              exists t, Pandas.drop_duplicates LINK_COLUMN
                          (Pandas.concat existing (Pandas.of_records call.1)) = Ok t)
         (flushes (trace (state_of out))).
Proof.
  intros Hrun.
  assert (Forall (fun call => call.1 ≠ []) (flushes (trace (state_of out)))) as Hne.
  { apply (run_disk_invariant http start_id end_id append
             (fun _ calls => Forall (fun call => call.1 ≠ []) calls)
             num_threads schedule d out); [|constructor|done].
    intros d' calls batch Hcalls Hbatch. apply Forall_app. split; [done|]. by constructor. }
  assert (Forall (fun call => Forall has_link call.1) (flushes (trace (state_of out))))
    as Hlinked.
  { revert Hrun. unfold crawl_kensetsu_databank_range.
    destruct (ThreadPoolExecutor num_threads); [|intros [= <-]; constructor].
    destruct (pool_block http start_id end_id append schedule d) as [st0|] eqn:Hblock; [|done].
    intros [= <-]. unfold pool_block in Hblock.
    assert (Forall has_link (all_data st0)
            ∧ Forall (fun call => Forall has_link call.1) (flushes (trace st0)))
      as [Hdata Hcalls].
    { eapply (loop_fetched_invariant http start_id end_id append
                (fun st => Forall has_link (all_data st)
                           ∧ Forall (fun call => Forall has_link call.1) (flushes (trace st)))
                ((fun id => BASE_URL +:+ Py.str id) <$> id_range start_id end_id)
                (handle_result_batches http start_id end_id append)
                _ _ _ []); [| |exact Hblock|].
      - apply (submit_pool_after http _ schedule).
      - apply range_urls_defined.
      - split; constructor. }
    destruct (final_flush_step append st0) as [->|(_ & _ & ->)]; [done|].
    apply Forall_app. split; [done|]. by constructor. }
  apply Forall_forall. intros call Hcall.
  pose proof (proj1 (Forall_forall _ _) Hne call Hcall) as Hn.
  pose proof (proj1 (Forall_forall _ _) Hlinked call Hcall) as Hl.
  split; [done|]. split; [done|]. intros existing. by apply merge_linked_Ok.
Qed.

Lemma run_batches_linked_witness :
  Forall (fun call =>
            call.1 ≠ [] ∧ Forall has_link call.1 ∧
            forall existing,
              exists t, Pandas.drop_duplicates LINK_COLUMN
                          (Pandas.concat existing (Pandas.of_records call.1)) = Ok t)
         (flushes (trace (state_of (default (Returned (initial Sample.failing))
            (crawl_kensetsu_databank_range Sample.steady 1 33 true 1 (seq 0 33)
                                           Sample.failing))))).
Proof.
  apply (run_batches_linked Sample.steady 1 33 true 1 (seq 0 33) Sample.failing).
  by vm_compute.
Defined.


(** ** A task that never completes *)

Section BlockFacts.
Variable http : nat -> string -> get_outcome.
Variables (start_id end_id : Z) (append : bool).

(** The loop never gets past a future whose task is not in the schedule. *)
Lemma loop_blocks urls schedule i m : forall k st done,
  pool_after http urls done (pool st) ->
  schedule = done ++ pending (pool st) ->
  i ∉ schedule ->
  k <= i < k + m ->
  (forall j, k <= j < k + m -> is_Some (urls !! j)) ->
  loop http start_id end_id append (seq k m) st = None.
Proof.
  induction m as [|m IH]; intros k st done Hpool Hsched Hi Hk Hurls; [lia|].
  destruct (Hurls k) as [url Hurl]; [lia|].
  simpl. unfold iteration, future_result.
  destruct (await http i (pending (pool st)) (pool st)) as [[res0 p0]|] eqn:Hawi.
  { apply (await_Some http urls i) with (done := done) (url := default url (urls !! i))
      in Hawi as (evs1 & Hevs & _ & Hin & _); [|done|].
    - exfalso. apply Hi. rewrite Hsched, Hevs, app_assoc. apply elem_of_app. by left.
    - destruct (Hurls i) as [url' ->]; [lia|done]. }
  destruct (await http k (pending (pool st)) (pool st)) as [[res p]|] eqn:Haw; [|done].
  destruct (decide (k = i)) as [->|Hne]; [congruence|].
  destruct (await_Some http urls k url _ done _ _ _ Hpool Hurl Haw)
    as (evs1 & Hevs & Hpool' & _ & _).
  apply (IH (S k) _ (done ++ evs1)).
  - by rewrite handle_result_pool.
  - rewrite handle_result_pool. simpl. by rewrite Hsched, Hevs, app_assoc.
  - done.
  - lia.
  - intros j Hj. apply Hurls. lia.
Qed.

End BlockFacts.

(** X17. A run whose pool is accepted never ends when the task of one
    identifier of the range never completes: the loop blocks on the
    future of that identifier (or of an earlier one), and the run neither
    returns nor raises. *)
Theorem hung_task_blocks_run http start_id end_id append num_threads schedule d i :
  (0 < num_threads)%Z ->
  i < Z.to_nat (end_id - start_id + 1) ->
  i ∉ schedule ->
  crawl_kensetsu_databank_range http start_id end_id append num_threads schedule d = None.
Proof.
  intros Hthreads Hi Hsched.
  unfold crawl_kensetsu_databank_range, pool_block, ThreadPoolExecutor.
  rewrite (proj2 (Z.leb_gt _ _)) by done.
  rewrite (loop_blocks http start_id end_id append
             ((fun id => BASE_URL +:+ Py.str id) <$> id_range start_id end_id)
             schedule i _ 0 _ []); [done| | |done| |].
  - apply (submit_pool_after http _ schedule).
  - done.
  - rewrite id_range_length. lia.
  - intros j Hj. apply lookup_lt_is_Some. lia.
Qed.

Lemma hung_task_blocks_run_witness :
  crawl_kensetsu_databank_range Sample.steady 100 102 true 2 [2; 0] Sample.fresh = None.
Proof.
  apply (hung_task_blocks_run Sample.steady 100 102 true 2 [2; 0] Sample.fresh 1).
  - reflexivity.
  - vm_compute. lia.
  - apply (bool_decide_unpack _). by vm_compute.
Defined.

(** ** Identifiers and their URLs *)

Lemma append_inj_r (s x y : string) : s +:+ x = s +:+ y -> x = y.
Proof. induction s as [|c s IH]; simpl; [done|]. intros [= H]. by apply IH. Qed.

Lemma to_int_nonnil n :
  Z.to_int n ≠ Decimal.Pos Decimal.Nil ∧ Z.to_int n ≠ Decimal.Neg Decimal.Nil.
Proof.
  destruct n as [|q|q]; simpl; split; try done;
    intros [= H]; by apply Unsigned.to_uint_nonnil in H.
Qed.

Lemma str_inj a b : Py.str a = Py.str b -> a = b.
Proof.
  unfold Py.str. intros H. apply (f_equal NilZero.int_of_string) in H.
  destruct (to_int_nonnil a) as [Ha1 Ha2]. destruct (to_int_nonnil b) as [Hb1 Hb2].
  rewrite !NilZero.isi in H by done.
  injection H as H. by apply DecimalZ.to_int_inj.
Qed.

Lemma url_of_injective start_id i j : url_of start_id i = url_of start_id j -> i = j.
Proof.
  unfold url_of. intros H%append_inj_r%str_inj. lia.
Qed.

(** X18. Distinct identifiers get distinct URLs, hence distinct [link]
    values: the URL of an identifier determines its position in the
    range. *)
Theorem url_of_inj start_id i j : url_of start_id i = url_of start_id j -> i = j.
Proof. apply url_of_injective. Qed.

Lemma url_of_inj_witness : 2 = 2.
Proof. apply (url_of_inj 100 2 2). reflexivity. Defined.


(** ** A run that appends to an empty disk *)

Section FreshFacts.
Variable http : nat -> string -> get_outcome.
Variables (start_id end_id : Z).

Local Abbreviation handle := (handle_result start_id end_id true).
Local Abbreviation run := (process start_id end_id true).

(** What one pass of the loop does to the batch, the disk and the
    successful flushes. *)
Lemma handle_result_effect append i res st :
  (all_data (handle_result start_id end_id append i res st)
     = all_data st ++ option_list (record_of res) ∧
   disk (handle_result start_id end_id append i res st) = disk st ∧
   persisted (trace (handle_result start_id end_id append i res st))
     = persisted (trace st)) ∨
  (batch_size <= length (all_data st ++ option_list (record_of res)) ∧
   exists d',
     append_or_create_excel (all_data st ++ option_list (record_of res)) append (disk st)
       = Returned d' ∧
     all_data (handle_result start_id end_id append i res st) = [] ∧
     disk (handle_result start_id end_id append i res st) = d' ∧
     persisted (trace (handle_result start_id end_id append i res st))
       = persisted (trace st) ++ [all_data st ++ option_list (record_of res)]) ∨
  (batch_size <= length (all_data st ++ option_list (record_of res)) ∧
   exists e d',
     append_or_create_excel (all_data st ++ option_list (record_of res)) append (disk st)
       = Raised e d' ∧
     all_data (handle_result start_id end_id append i res st)
       = all_data st ++ option_list (record_of res) ∧
     disk (handle_result start_id end_id append i res st) = d' ∧
     persisted (trace (handle_result start_id end_id append i res st))
       = persisted (trace st)).
Proof.
  unfold handle_result, try_body, flush_batch, report_progress, record_result.
  destruct res as [[[|pair record]|]|e]; simpl; rewrite ?app_nil_r;
    repeat case_match; simplify_eq; trace_simpl;
    try (left; by repeat split);
    try (right; left; split; [by apply Nat.leb_le|]; eexists; by repeat split);
    right; right; (split; [by apply Nat.leb_le|]); eexists _, _; by repeat split.
Qed.

(** A merge of records whose links are new keeps everything. *)
Lemma persist_stored d batches batch :
  stored d batches ->
  batch ≠ [] ->
  Forall has_link batch ->
  NoDup (link_of <$> (concat batches ++ batch)) ->
  (forall d', append_or_create_excel batch true d = Returned d' ->
              stored d' (batches ++ [batch])) ∧
  (forall e d', append_or_create_excel batch true d = Raised e d' ->
                stored d' batches).
Proof.
  unfold stored, append_or_create_excel. intros Hst Hne Hlinks Hnd.
  destruct (file d) as [existing|] eqn:Hfile.
  - assert (Pandas.drop_duplicates LINK_COLUMN
              (Pandas.concat existing (Pandas.of_records batch))
            = Ok {| Pandas.columns :=
                      Pandas.columns (Pandas.concat existing (Pandas.of_records batch));
                    Pandas.rows := concat batches ++ batch |}) as ->.
    { unfold Pandas.drop_duplicates.
      assert (LINK_COLUMN ∈ Pandas.columns (Pandas.concat existing (Pandas.of_records batch)))
        as Hcol by (apply add_columns_elem_of; right; by apply has_link_columns).
      assert (Pandas.empty (Pandas.concat existing (Pandas.of_records batch)) = false) as ->.
      { unfold Pandas.empty. apply orb_false_iff. split; apply negb_false_iff.
        - simpl. destruct batch; [done|]. by destruct (Pandas.rows existing).
        - destruct (Pandas.columns _); [by apply elem_of_nil in Hcol|done]. }
      rewrite decide_True by done. do 2 f_equal. simpl.
      rewrite Hst. by apply keep_last_id. }
    split.
    + intros d' [-> _]%to_excel_Returned. simpl.
      rewrite concat_app. simpl. by rewrite app_nil_r.
    + intros e d' [_ ->]%to_excel_Raised. by rewrite Hfile.
  - subst batches. split.
    + intros d' [-> _]%to_excel_Returned. simpl. by rewrite app_nil_r.
    + intros e d' [_ ->]%to_excel_Raised. by rewrite Hfile.
Qed.

(** The pass of index [k], on the fetch of the URL of [k], keeps the
    invariant. *)
Lemma handle_result_fresh_inv k n st :
  fresh_inv start_id k st ->
  fresh_inv start_id (S k)
    (handle k (crawl_and_extract_data (http n) (url_of start_id k)) st).
Proof.
  intros (Hacc & Hstored & Hlinked & Hnd & Hbound).
  set (res := crawl_and_extract_data (http n) (url_of start_id k)).
  assert (forall r, record_of res = Some r -> link_of r = Some (url_of start_id k)) as Hlink
    by (intros r Hr; by apply fetched_record_link in Hr).
  assert (Forall has_link (all_data st ++ option_list (record_of res))) as Hlinked'.
  { apply Forall_app. split; [done|]. destruct (record_of res) as [r|]; [|constructor].
    repeat constructor. unfold has_link. rewrite (Hlink r eq_refl). by eexists. }
  assert (NoDup (link_of <$> (appended (trace st) ++ option_list (record_of res)))) as Hnd'.
  { destruct (record_of res) as [r|]; [|by rewrite app_nil_r].
    rewrite fmap_app. apply NoDup_app. split; [done|]. split; [|apply NoDup_singleton].
    intros l (r' & -> & Hr')%list_elem_of_fmap Hl. simpl in Hl.
    apply list_elem_of_singleton in Hl. rewrite (Hlink r eq_refl) in Hl.
    apply (proj1 (Forall_forall _ _) Hbound) in Hr' as (j & Hj & Hr').
    rewrite Hr' in Hl.
    assert (url_of start_id j = url_of start_id k) as Heq by congruence.
    apply url_of_injective in Heq. lia. }
  assert (Forall (fun r => exists j, j < S k ∧ link_of r = Some (url_of start_id j))
                 (appended (trace st) ++ option_list (record_of res))) as Hbound'.
  { apply Forall_app. split.
    - eapply Forall_impl; [exact Hbound|]. intros r (j & Hj & Hr). exists j. split; [lia|done].
    - destruct (record_of res) as [r|]; [|constructor].
      repeat constructor. exists k. split; [lia|]. by apply Hlink. }
  pose proof (handle_result_accounted start_id end_id true k res st Hacc) as Hacc'.
  pose proof (handle_result_appended start_id end_id true k res st) as Happ.
  unfold fresh_inv. rewrite Happ.
  split; [exact Hacc'|]. split; [|split; [|by split]].
  - destruct (handle_result_effect true k res st)
      as [(_ & -> & ->)|[(Hfull & d' & Hret & _ & -> & ->)|(Hfull & e & d' & Hraise & _ & -> & ->)]];
      [done| |].
    + destruct (persist_stored (disk st) (persisted (trace st))
                  (all_data st ++ option_list (record_of res)) Hstored)
        as [Hok _]; [|exact Hlinked'| |by apply Hok].
      * intros Hnil. rewrite Hnil in Hfull. simpl in Hfull. unfold batch_size in Hfull. lia.
      * rewrite app_assoc. unfold accounted in Hacc. by rewrite <-Hacc.
    + destruct (persist_stored (disk st) (persisted (trace st))
                  (all_data st ++ option_list (record_of res)) Hstored)
        as [_ Hfail]; [|exact Hlinked'| |by apply (Hfail e)].
      * intros Hnil. rewrite Hnil in Hfull. simpl in Hfull. unfold batch_size in Hfull. lia.
      * rewrite app_assoc. unfold accounted in Hacc. by rewrite <-Hacc.
  - destruct (handle_result_effect true k res st)
      as [(-> & _)|[(_ & d' & _ & -> & _)|(_ & e & d' & _ & -> & _)]];
      (done || constructor).
Qed.

Lemma process_fresh_inv schedule m : forall k st,
  fresh_inv start_id k st ->
  fresh_inv start_id (k + m) (run k (settled http start_id schedule <$> seq k m) st).
Proof.
  induction m as [|m IH]; intros k st Hst.
  - by rewrite Nat.add_0_r.
  - change (run k (settled http start_id schedule <$> seq k (S m)) st)
      with (run (S k) (settled http start_id schedule <$> seq (S k) m)
                (handle k (settled http start_id schedule k) st)).
    replace (k + S m) with (S k + m) by lia.
    apply IH. by apply handle_result_fresh_inv.
Qed.

End FreshFacts.

(** What the sample servers serve. *)
Lemma steady_serves (P : Py.dict -> Prop) start_id end_id :
  Forall (fun i => P (extract_data (url_of start_id i) (Sample.page Sample.two_rows)))
         (seq 0 (Z.to_nat (end_id - start_id + 1))) ->
  serves P Sample.steady start_id end_id.
Proof.
  intros Hall n i record Hi (response & Hget & ->)%crawl_and_extract_data_Some.
  injection Hget as <-.
  apply (proj1 (Forall_forall _ _) Hall i). apply elem_of_seq. lia.
Qed.

Lemma server_serves (P : Py.dict -> Prop) start_id end_id :
  Forall (fun i => P (extract_data (url_of start_id i) (Sample.page Sample.two_rows)))
         (seq 0 (Z.to_nat (end_id - start_id + 1))) ->
  serves P Sample.server start_id end_id.
Proof.
  intros Hall n i record Hi (response & Hget & ->)%crawl_and_extract_data_Some.
  destruct n as [|n]; [done|]. injection Hget as <-.
  apply (proj1 (Forall_forall _ _) Hall i). apply elem_of_seq. lia.
Qed.

(** ** Runs in which no write fails *)

Lemma persist_state_faults data append d :
  faults d = [] -> faults (state_of (append_or_create_excel data append d)) = [].
Proof.
  intros Hf. unfold append_or_create_excel.
  destruct append, (file d) as [existing|];
    try (by rewrite to_excel_no_fault).
  destruct (Pandas.drop_duplicates _ _); [by rewrite to_excel_no_fault | done].
Qed.

Lemma persist_Raised_file data append d e d' :
  append_or_create_excel data append d = Raised e d' -> file d' = file d.
Proof.
  unfold append_or_create_excel.
  destruct append, (file d) as [existing|] eqn:Hfile;
    try (intros [_ ->]%to_excel_Raised; by rewrite ?Hfile).
  destruct (Pandas.drop_duplicates _ _).
  - intros [_ ->]%to_excel_Raised. by rewrite Hfile.
  - intros [= _ <-]. by rewrite Hfile.
Qed.

Lemma persist_state_faithful data append d :
  faithful_disk d ->
  Forall (fun r => r ≠ [] ∧ Excel.plain_record r) data ->
  faithful_disk (state_of (append_or_create_excel data append d)).
Proof.
  intros Hd Hdata.
  destruct (append_or_create_excel data append d) as [d'|e d'] eqn:Hcall; simpl.
  - by apply (persist_faithful data append d d').
  - apply persist_Raised_file in Hcall. unfold faithful_disk in *. by rewrite Hcall.
Qed.

(** The disk refuses no write and its table is faithful, the records in
    memory are plain. *)
Local Abbreviation reliable st :=
  (faults (disk st) = [] ∧ faithful_disk (disk st)
   ∧ Forall (fun r => r ≠ [] ∧ Excel.plain_record r) (all_data st)).

Lemma handle_result_reliable start_id end_id append i res st :
  (forall r, res = Ok (Some r) -> Excel.plain_record r) ->
  reliable st -> reliable (handle_result start_id end_id append i res st).
Proof.
  intros Hres (Hfaults & Hdisk & Hdata).
  assert (Forall (fun r => r ≠ [] ∧ Excel.plain_record r)
                 (all_data st ++ option_list (record_of res))) as Hbatch.
  { apply Forall_app. split; [done|].
    destruct (record_of res) as [r|] eqn:Hrec; [|constructor].
    apply record_of_Some in Hrec as [-> Hne]. constructor; [|done]. split; [done|]. by apply Hres. }
  destruct (handle_result_effect start_id end_id append i res st)
    as [(-> & -> & _)|[(_ & d' & Hcall & -> & -> & _)|(_ & e & d' & Hcall & -> & -> & _)]].
  - done.
  - pose proof (persist_state_faults (all_data st ++ option_list (record_of res))
                  append _ Hfaults) as Hf.
    pose proof (persist_state_faithful _ append _ Hdisk Hbatch) as Hd.
    rewrite Hcall in Hf, Hd. split; [done|]. split; [done|]. constructor.
  - pose proof (persist_state_faults (all_data st ++ option_list (record_of res))
                  append _ Hfaults) as Hf.
    pose proof (persist_state_faithful _ append _ Hdisk Hbatch) as Hd.
    rewrite Hcall in Hf, Hd. done.
Qed.

(** A property of the orchestrator that the pass of every task of the
    pool preserves, on what the fetch of the URL of the task gives, holds
    along the loop. *)
Lemma loop_task_invariant http start_id end_id append (I : Crawler -> Prop) urls :
  (forall i n url p st,
     urls !! i = Some url ->
     I st ->
     I (handle_result start_id end_id append i
          (crawl_and_extract_data (http n) url) (set_pool p st))) ->
  forall indices st st' done,
    pool_after http urls done (pool st) ->
    Forall (fun i => is_Some (urls !! i)) indices ->
    loop http start_id end_id append indices st = Some st' ->
    I st -> I st'.
Proof.
  intros Hstep. induction indices as [|i indices IH]; intros st st' done Hpool Hurls; simpl.
  - by intros [= <-].
  - apply Forall_cons in Hurls as [[url Hurl] Hurls].
    unfold iteration, future_result.
    destruct (await http i (pending (pool st)) (pool st)) as [[res p]|] eqn:Haw; [|done].
    destruct (await_Some http urls i url _ done _ _ _ Hpool Hurl Haw)
      as (evs1 & _ & Hpool' & _ & ->).
    intros Hloop Hst.
    apply (IH _ _ (done ++ evs1)) in Hloop; [done| |done|by apply Hstep].
    by rewrite handle_result_pool.
Qed.

(** A run on a disk that refuses no write and whose table is faithful,
    with pages that give plain records, leaves such a disk: every table
    it writes is faithful, so every merge pass reads the table of the
    pass before as it was written. *)
Lemma run_reliable http start_id end_id append num_threads schedule d out :
  faults d = [] ->
  faithful_disk d ->
  serves Excel.plain_record http start_id end_id ->
  crawl_kensetsu_databank_range http start_id end_id append num_threads schedule d
    = Some out ->
  faults (disk (state_of out)) = [] ∧ faithful_disk (disk (state_of out)).
Proof.
  intros Hfaults Hdisk Hserves. unfold crawl_kensetsu_databank_range.
  destruct (ThreadPoolExecutor num_threads); [|by intros [= <-]].
  destruct (pool_block http start_id end_id append schedule d) as [st0|] eqn:Hblock; [|done].
  intros [= <-]. unfold pool_block in Hblock.
  assert (forall i n url p st,
            ((fun id => BASE_URL +:+ Py.str id) <$> id_range start_id end_id) !! i = Some url ->
            reliable st ->
            reliable (handle_result start_id end_id append i
                        (crawl_and_extract_data (http n) url) (set_pool p st))) as Hstep.
  { intros i n url p st Hurl Hst. apply handle_result_reliable; [|done].
    intros r Hr.
    assert (i < Z.to_nat (end_id - start_id + 1)) as Hi.
    { apply lookup_lt_Some in Hurl. by rewrite id_range_length in Hurl. }
    rewrite (id_range_lookup start_id end_id i Hi) in Hurl. injection Hurl as <-.
    by apply (Hserves n i r Hi). }
  assert (reliable st0) as (Hf0 & Hd0 & Hdata0).
  { eapply (loop_task_invariant http start_id end_id append
              (fun st => reliable st)
              ((fun id => BASE_URL +:+ Py.str id) <$> id_range start_id end_id)
              Hstep _ _ _ []); [| |exact Hblock|].
    - apply (submit_pool_after http _ schedule).
    - apply range_urls_defined.
    - split; [done|]. split; [done|]. constructor. }
  destruct (final_flush_step append st0) as [->|(_ & -> & _)]; [done|].
  split; [by apply persist_state_faults | by apply persist_state_faithful].
Qed.

Lemma returned_calls_snoc calls batch r :
  returned_calls (calls ++ [(batch, r)])
  = returned_calls calls ++ match r with None => [batch] | Some _ => [] end.
Proof. unfold returned_calls. rewrite omap_app. simpl. by destruct r. Qed.

(** The batches a run hands to the sink hold the records of its pages. *)
Lemma run_batches_plain http start_id end_id append num_threads schedule d out :
  serves Excel.plain_record http start_id end_id ->
  crawl_kensetsu_databank_range http start_id end_id append num_threads schedule d
    = Some out ->
  Forall (fun call => Forall (fun r => r ≠ [] ∧ Excel.plain_record r) call.1)
         (flushes (trace (state_of out))).
Proof.
  intros Hserves. unfold crawl_kensetsu_databank_range.
  destruct (ThreadPoolExecutor num_threads); [|intros [= <-]; constructor].
  destruct (pool_block http start_id end_id append schedule d) as [st0|] eqn:Hblock; [|done].
  intros [= <-]. unfold pool_block in Hblock.
  set (I := fun st : Crawler =>
              Forall (fun r => r ≠ [] ∧ Excel.plain_record r) (all_data st)
              ∧ Forall (fun call => Forall (fun r => r ≠ [] ∧ Excel.plain_record r) call.1)
                       (flushes (trace st))).
  assert (forall i n url p st,
            ((fun id => BASE_URL +:+ Py.str id) <$> id_range start_id end_id) !! i = Some url ->
            I st ->
            I (handle_result start_id end_id append i
                 (crawl_and_extract_data (http n) url) (set_pool p st))) as Hstep.
  { intros i n url p st Hurl [Hdata Hcalls].
    assert (i < Z.to_nat (end_id - start_id + 1)) as Hi.
    { apply lookup_lt_Some in Hurl. by rewrite id_range_length in Hurl. }
    rewrite (id_range_lookup start_id end_id i Hi) in Hurl. injection Hurl as <-.
    set (res := crawl_and_extract_data (http n) (url_of start_id i)).
    assert (Forall (fun r => r ≠ [] ∧ Excel.plain_record r)
                   (all_data st ++ option_list (record_of res))) as Hbatch.
    { apply Forall_app. split; [done|].
      destruct (record_of res) as [r|] eqn:Hrec; [|constructor].
      apply record_of_Some in Hrec as [Hres Hne]. constructor; [|done].
      split; [done|]. by apply (Hserves n i r Hi). }
    split.
    - destruct (handle_result_effect start_id end_id append i res (set_pool p st))
        as [(-> & _)|[(_ & d' & _ & -> & _)|(_ & e & d' & _ & -> & _)]];
        (done || constructor).
    - destruct (handle_result_call start_id end_id append i res (set_pool p st))
        as [->|(r & ->)]; [done|].
      apply Forall_app. split; [done|]. by constructor. }
  assert (I st0) as [Hdata Hcalls].
  { eapply (loop_task_invariant http start_id end_id append I
              ((fun id => BASE_URL +:+ Py.str id) <$> id_range start_id end_id)
              Hstep _ _ _ []); [| |exact Hblock|].
    - apply (submit_pool_after http _ schedule).
    - apply range_urls_defined.
    - split; constructor. }
  destruct (final_flush_step append st0) as [->|(_ & _ & ->)]; [done|].
  apply Forall_app. split; [done|]. by constructor.
Qed.

(** X11. With [append_to_existing=False] every flush overwrites the
    file: after a run in which no write fails, the file holds the batch
    of the last flush and nothing of the earlier ones, or is as it was
    before the run when the run flushed nothing. This is for pages that
    give plain records: the table of the last flush is then faithful,
    the file gives it back as it was written. *)
Theorem overwrite_keeps_last_batch http start_id end_id num_threads schedule d out :
  faults d = [] ->
  serves Excel.plain_record http start_id end_id ->
  crawl_kensetsu_databank_range http start_id end_id false num_threads schedule d
    = Some out ->
  file (disk (state_of out))
  = match last (persisted (trace (state_of out))) with
    | Some batch => Some (Pandas.of_records batch)
    | None => file d
    end ∧
  Forall (fun call => call.2 = None) (flushes (trace (state_of out))) ∧
  forall batch, last (persisted (trace (state_of out))) = Some batch ->
                Excel.faithful (Pandas.of_records batch).
Proof.
  intros Hfaults Hserves Hrun. split; [|split].
  - rewrite persisted_flushes.
    apply (run_disk_invariant http start_id end_id false
             (fun d' calls => file d' = match last (returned_calls calls) with
                                        | Some batch => Some (Pandas.of_records batch)
                                        | None => file d
                                        end)
             num_threads schedule d out); [|done|done].
    intros d' calls batch HJ _. rewrite returned_calls_snoc.
    unfold append_or_create_excel. simpl.
    destruct (to_excel (Pandas.of_records batch) d') as [d2|e d2] eqn:Hw; simpl.
    + apply to_excel_Returned in Hw as [-> _]. by rewrite last_snoc.
    + apply to_excel_Raised in Hw as [_ ->]. by rewrite app_nil_r.
  - apply (run_disk_invariant http start_id end_id false
             (fun d' calls => faults d' = [] ∧ Forall (fun call => call.2 = None) calls)
             num_threads schedule d out); [|by split|done].
    intros d' calls batch [Hf Hcalls] _.
    unfold append_or_create_excel. simpl. rewrite to_excel_no_fault by done. simpl.
    split; [done|]. apply Forall_app. split; [done|]. by constructor.
  - intros batch Hlast. apply of_records_faithful.
    pose proof (run_batches_plain http start_id end_id false num_threads schedule d out
                  Hserves Hrun) as Hcalls.
    apply last_Some_elem_of in Hlast.
    rewrite persisted_flushes in Hlast. unfold returned_calls in Hlast.
    apply list_elem_of_omap in Hlast as ([b r] & Hcall & Hb).
    destruct r; simpl in Hb; [done|]. injection Hb as <-.
    by apply (proj1 (Forall_forall _ _) Hcalls) in Hcall.
Qed.

Lemma overwrite_keeps_last_batch_witness :
  file (disk (state_of (default (Returned (initial Sample.fresh))
          (crawl_kensetsu_databank_range Sample.steady 1 33 false 1 (seq 0 33)
                                         Sample.fresh))))
  = match last (persisted (trace (state_of (default (Returned (initial Sample.fresh))
          (crawl_kensetsu_databank_range Sample.steady 1 33 false 1 (seq 0 33)
                                         Sample.fresh))))) with
    | Some batch => Some (Pandas.of_records batch)
    | None => file Sample.fresh
    end.
Proof.
  apply (overwrite_keeps_last_batch Sample.steady 1 33 1 (seq 0 33) Sample.fresh).
  - reflexivity.
  - apply steady_serves. apply (bool_decide_unpack _). by vm_compute.
  - by vm_compute.
Defined.

Lemma persist_append_links data d l :
  l ∈ links_on d ->
  l ∈ links_on (state_of (append_or_create_excel data true d)).
Proof.
  unfold links_on, existing_rows, append_or_create_excel.
  destruct (file d) as [existing|] eqn:Hfile; [|by intros ?%elem_of_nil].
  intros Hl. unfold Pandas.drop_duplicates.
  destruct (Pandas.empty _).
  - destruct (to_excel _ d) as [d2|err d2] eqn:Hw; simpl.
    + apply to_excel_Returned in Hw as [-> _]. simpl.
      rewrite fmap_app. apply elem_of_app. by left.
    + apply to_excel_Raised in Hw as [_ ->]. by rewrite Hfile.
  - destruct (decide _); [|simpl; by rewrite Hfile].
    destruct (to_excel _ d) as [d2|err d2] eqn:Hw; simpl.
    + apply to_excel_Returned in Hw as [-> _]. simpl.
      apply (keep_last_keys LINK_COLUMN). rewrite fmap_app. apply elem_of_app. by left.
    + apply to_excel_Raised in Hw as [_ ->]. by rewrite Hfile.
Qed.

(** X12. With [append_to_existing=True] a run in which no write fails
    never loses a link: every link value on the disk before the run is on
    the disk after it. This is for a disk whose table is faithful and for
    pages that give plain records: every table the run writes is then
    faithful, the one it leaves included, so that every merge pass reads
    the table of the pass before as it was written. *)
Theorem append_run_keeps_links http start_id end_id num_threads schedule d out :
  faults d = [] ->
  faithful_disk d ->
  serves Excel.plain_record http start_id end_id ->
  crawl_kensetsu_databank_range http start_id end_id true num_threads schedule d
    = Some out ->
  faithful_disk (disk (state_of out)) ∧
  forall l, l ∈ links_on d -> l ∈ links_on (disk (state_of out)).
Proof.
  intros Hfaults Hdisk Hserves Hrun.
  split; [by apply (run_reliable http start_id end_id true num_threads schedule d out)|].
  intros l Hl.
  apply (run_disk_invariant http start_id end_id true
           (fun d' _ => l ∈ links_on d') num_threads schedule d out); [|done|done].
  intros d' calls batch HJ _. by apply persist_append_links.
Qed.

Lemma append_run_keeps_links_witness :
  Some "u1" ∈ links_on
    (disk (state_of (default (Returned (initial Sample.kept))
                       (crawl_kensetsu_databank_range Sample.steady 1 3 true 2 [2; 1; 0]
                                                      Sample.kept)))).
Proof.
  apply (append_run_keeps_links Sample.steady 1 3 2 [2; 1; 0] Sample.kept).
  - reflexivity.
  - apply (bool_decide_unpack _). by vm_compute.
  - apply steady_serves. apply (bool_decide_unpack _). by vm_compute.
  - by vm_compute.
  - apply (bool_decide_unpack _). by vm_compute.
Defined.

(** X19. A run with [append_to_existing=True] that starts without the
    file, in which every task completes and no write fails, and that
    returns, leaves on the disk exactly the records of the identifiers
    whose fetch gave one, one row each, in ascending order of identifier:
    nothing is lost between the flushes and the merges drop nothing, the
    links being distinct. This is for pages that give plain records:
    every table the run writes is then faithful, so that every merge pass
    reads the table of the pass before as it was written. *)
Theorem fresh_run_table http start_id end_id num_threads schedule d st :
  file d = None ->
  faults d = [] ->
  serves Excel.plain_record http start_id end_id ->
  (0 < num_threads)%Z ->
  (forall i, i < Z.to_nat (end_id - start_id + 1) -> i ∈ schedule) ->
  crawl_kensetsu_databank_range http start_id end_id true num_threads schedule d
    = Some (Returned st) ->
  faithful_disk (disk st) ∧
  existing_rows (disk st)
  = omap (fun i => record_of (settled http start_id schedule i))
         (seq 0 (Z.to_nat (end_id - start_id + 1))).
Proof.
  intros Hfile Hfaults Hserves Hthreads Hall Hrun.
  split.
  { apply (run_reliable http start_id end_id true num_threads schedule d (Returned st));
      [done| |done|done].
    unfold faithful_disk. by rewrite Hfile. }
  revert Hrun.
  destruct (crawl_process http start_id end_id true num_threads schedule d Hthreads Hall)
    as (p & ->).
  set (n := Z.to_nat (end_id - start_id + 1)).
  set (st0 := process start_id end_id true 0 (settled http start_id schedule <$> seq 0 n)
                      (initial d)).
  assert (fresh_inv start_id (0 + n) st0) as (Hacc & Hstored & Hlinked & Hnd & _).
  { apply process_fresh_inv. unfold fresh_inv, accounted, stored. simpl.
    rewrite Hfile. repeat split; constructor. }
  assert (appended (trace st0)
          = omap (fun i => record_of (settled http start_id schedule i)) (seq 0 n)) as Happ.
  { unfold st0. rewrite process_appended. simpl. by rewrite omap_fmap_compose. }
  rewrite final_flush_set_pool. unfold final_flush, accounted in *.
  destruct (all_data st0) as [|r l] eqn:Hdata; simpl.
  - intros [= <-]. simpl. rewrite <-Happ, Hacc, app_nil_r.
    unfold existing_rows, stored in *. destruct (file (disk st0)); [done|].
    by rewrite Hstored.
  - destruct (append_or_create_excel (r :: l) true (disk st0)) as [d'|e d'] eqn:Hret; [|done].
    simpl. intros [= <-]. simpl. rewrite <-Happ, Hacc.
    destruct (persist_stored (disk st0) (persisted (trace st0)) (r :: l))
      as [Hok _]; [done|done|done|by rewrite <-Hacc|].
    specialize (Hok d' Hret). unfold existing_rows, stored in *.
    destruct (file d') as [t|].
    + rewrite Hok, concat_app. simpl. by rewrite app_nil_r.
    + by destruct (persisted (trace st0)).
Qed.

Lemma fresh_run_table_witness :
  existing_rows
    (disk (state_of (default (Returned (initial Sample.fresh))
             (crawl_kensetsu_databank_range Sample.server 100 102 true 2 [2; 0; 1]
                                            Sample.fresh))))
  = omap (fun i => record_of (settled Sample.server 100 [2; 0; 1] i)) (seq 0 3).
Proof.
  apply (fresh_run_table Sample.server 100 102 2 [2; 0; 1] Sample.fresh).
  - reflexivity.
  - reflexivity.
  - apply server_serves. apply (bool_decide_unpack _). by vm_compute.
  - reflexivity.
  - intros i Hi. change (i < 3) in Hi.
    destruct i as [|[|[|i]]]; [apply (bool_decide_unpack _); by vm_compute..|lia].
  - by vm_compute.
Defined.


(** ** The script *)

Lemma crawl_append_links http start_id end_id num_threads schedule d out l :
  crawl_kensetsu_databank_range http start_id end_id true num_threads schedule d
    = Some out ->
  l ∈ links_on d ->
  l ∈ links_on (disk (state_of out)).
Proof.
  intros Hrun Hl.
  apply (run_disk_invariant http start_id end_id true
           (fun d' _ => l ∈ links_on d') num_threads schedule d out); [|done|done].
  intros d' calls batch HJ _. by apply persist_append_links.
Qed.

(** X20. Whatever its arguments, the script loses no link that is on the
    disk when no write fails: it always crawls with
    [append_to_existing=True], and when it stops on the usage message or
    on an argument that is no integer it has not touched the disk. This
    is for a disk whose table is faithful and for pages that give plain
    records, as in X12. *)
Theorem script_keeps_links int_of http argv schedule d o :
  faults d = [] ->
  faithful_disk d ->
  (forall start_id end_id,
     argv !! 1 ≫= int_of = Some start_id -> argv !! 2 ≫= int_of = Some end_id ->
     serves Excel.plain_record http start_id end_id) ->
  script int_of http argv schedule d = Some o ->
  faithful_disk (disk_after o) ∧
  forall l, l ∈ links_on d -> l ∈ links_on (disk_after o).
Proof.
  unfold script. intros Hfaults Hdisk Hserves Hrun.
  destruct ((length argv <? 3) || (4 <? length argv)); [by simplify_eq|].
  destruct (argv !! 1 ≫= int_of) as [start_id|]; [|by simplify_eq].
  destruct (argv !! 2 ≫= int_of) as [end_id|]; [|by simplify_eq].
  destruct (threads_argument int_of argv) as [num_threads|]; [|by simplify_eq].
  destruct (crawl_kensetsu_databank_range _ _ _ _ _ _ _) as [out|] eqn:Hcrawl; [|done].
  simpl in Hrun. injection Hrun as <-.
  pose proof (run_reliable _ _ _ _ _ _ _ _ Hfaults Hdisk (Hserves _ _ eq_refl eq_refl) Hcrawl)
    as [_ Hd].
  split; [by destruct out|].
  intros l Hl.
  apply (crawl_append_links _ _ _ _ _ _ _ _ Hcrawl) in Hl. by destruct out.
Qed.

Lemma script_keeps_links_witness :
  Some "u1" ∈ links_on
    (disk_after (default (Usage Sample.kept)
                   (script Sample.int_of Sample.steady ["crawler_by_id.py"; "100"; "102"; "2"]
                           [2; 1; 0] Sample.kept))).
Proof.
  apply (script_keeps_links Sample.int_of Sample.steady
           ["crawler_by_id.py"; "100"; "102"; "2"] [2; 1; 0] Sample.kept).
  - reflexivity.
  - apply (bool_decide_unpack _). by vm_compute.
  - intros start_id end_id [= <-] [= <-]. apply steady_serves.
    apply (bool_decide_unpack _). by vm_compute.
  - by vm_compute.
  - apply (bool_decide_unpack _). by vm_compute.
Defined.

(** The script leaves the disk as it was and fetches nothing when
    the number of arguments is wrong (usage message), when an argument is
    no integer, and when the worker count it was given is not positive:
    in the last case the [ValueError] of the pool leaves the script. *)
Theorem script_refusals int_of http argv schedule d :
  (length argv < 3 ∨ 4 < length argv ->
   script int_of http argv schedule d = Some (Usage d)) ∧
  (3 <= length argv <= 4 ->
   argv !! 1 ≫= int_of = None ∨ argv !! 2 ≫= int_of = None
   ∨ threads_argument int_of argv = None ->
   script int_of http argv schedule d = Some (BadArgument d)) ∧
  (forall start_id end_id num_threads,
     3 <= length argv <= 4 ->
     argv !! 1 ≫= int_of = Some start_id ->
     argv !! 2 ≫= int_of = Some end_id ->
     threads_argument int_of argv = Some num_threads ->
     (num_threads <= 0)%Z ->
     script int_of http argv schedule d = Some (Ran (Raised ValueError (initial d)))).
Proof.
  unfold script. split; [|split].
  - intros Hlen.
    destruct (length argv <? 3) eqn:H3; [done|].
    destruct (4 <? length argv) eqn:H4; [done|].
    apply Nat.ltb_ge in H3, H4. lia.
  - intros Hlen Hbad.
    rewrite (proj2 (Nat.ltb_ge _ _)) by lia. rewrite (proj2 (Nat.ltb_ge _ _)) by lia.
    simpl. destruct (argv !! 1 ≫= int_of); [|done].
    destruct (argv !! 2 ≫= int_of); [|done].
    destruct (threads_argument int_of argv); [|done].
    by destruct Hbad as [?|[?|?]].
  - intros start_id end_id num_threads Hlen -> -> -> Hthreads.
    rewrite (proj2 (Nat.ltb_ge _ _)) by lia. rewrite (proj2 (Nat.ltb_ge _ _)) by lia.
    simpl. unfold crawl_kensetsu_databank_range, ThreadPoolExecutor.
    by rewrite (proj2 (Z.leb_le _ _)) by done.
Qed.

Lemma script_refusals_witness :
  script Sample.int_of Sample.steady ["crawler_by_id.py"; "100"] [] Sample.used
    = Some (Usage Sample.used) ∧
  script Sample.int_of Sample.steady ["crawler_by_id.py"; "100"; "ten"] [] Sample.used
    = Some (BadArgument Sample.used) ∧
  script Sample.int_of Sample.steady ["crawler_by_id.py"; "100"; "102"; "0"] [] Sample.used
    = Some (Ran (Raised ValueError (initial Sample.used))).
Proof.
  split; [|split].
  - apply (script_refusals Sample.int_of Sample.steady ["crawler_by_id.py"; "100"]).
    left. simpl. lia.
  - apply (proj1 (proj2 (script_refusals Sample.int_of Sample.steady
                           ["crawler_by_id.py"; "100"; "ten"] [] Sample.used))).
    + simpl. lia.
    + right. left. reflexivity.
  - apply (proj2 (proj2 (script_refusals Sample.int_of Sample.steady
                           ["crawler_by_id.py"; "100"; "102"; "0"] [] Sample.used))
             100%Z 102%Z 0%Z); (reflexivity || (simpl; lia)).
Defined.


(** ** The schedule does not matter; where logged errors come from *)

Lemma crawl_and_extract_data_ext get get' url :
  get url = get' url -> crawl_and_extract_data get url = crawl_and_extract_data get' url.
Proof. unfold crawl_and_extract_data. by intros ->. Qed.

Lemma outcome_map_forget p (o : outcome Crawler) :
  outcome_map forget_pool (outcome_map (set_pool p) o) = outcome_map forget_pool o.
Proof. by destruct o. Qed.

(** X22. On a server whose answers do not depend on when a request
    completes, the run does the same whatever the order in which the
    fetches complete: the batch, the failure list, the disk, the trace and
    the way the run ends are those of any other complete schedule. *)
Theorem schedule_independent http start_id end_id append num_threads schedule schedule' d :
  (forall n url, http n url = http 0 url) ->
  (0 < num_threads)%Z ->
  (forall i, i < Z.to_nat (end_id - start_id + 1) -> i ∈ schedule) ->
  (forall i, i < Z.to_nat (end_id - start_id + 1) -> i ∈ schedule') ->
  exists out out',
    crawl_kensetsu_databank_range http start_id end_id append num_threads schedule d
      = Some out ∧
    crawl_kensetsu_databank_range http start_id end_id append num_threads schedule' d
      = Some out' ∧
    outcome_map forget_pool out = outcome_map forget_pool out'.
Proof.
  intros Hsteady Hthreads Hall Hall'.
  destruct (crawl_process http start_id end_id append num_threads schedule d Hthreads Hall)
    as (p & ->).
  destruct (crawl_process http start_id end_id append num_threads schedule' d Hthreads Hall')
    as (p' & ->).
  eexists _, _. split; [done|]. split; [done|].
  rewrite !final_flush_set_pool, !outcome_map_forget. do 3 f_equal.
  apply list_fmap_ext. intros _ i _. unfold settled.
  apply crawl_and_extract_data_ext. by rewrite (Hsteady (rank i schedule)), (Hsteady (rank i schedule')).
Qed.

Lemma schedule_independent_witness :
  exists out out',
    crawl_kensetsu_databank_range Sample.steady 100 102 true 2 [2; 0; 1] Sample.fresh
      = Some out ∧
    crawl_kensetsu_databank_range Sample.steady 100 102 true 2 [0; 1; 2] Sample.fresh
      = Some out' ∧
    outcome_map forget_pool out = outcome_map forget_pool out'.
Proof.
  apply (schedule_independent Sample.steady 100 102 true 2 [2; 0; 1] [0; 1; 2] Sample.fresh).
  - reflexivity.
  - reflexivity.
  - intros i Hi. change (i < 3) in Hi.
    destruct i as [|[|[|i]]]; [apply (bool_decide_unpack _); by vm_compute..|lia].
  - intros i Hi. change (i < 3) in Hi.
    destruct i as [|[|[|i]]]; [apply (bool_decide_unpack _); by vm_compute..|lia].
Defined.

Lemma logged_app t1 t2 : logged (t1 ++ t2) = logged t1 ++ logged t2.
Proof. apply omap_app. Qed.

Lemma error_origin_app http t t' e :
  error_origin http t e -> error_origin http (t ++ t') e.
Proof.
  intros [(batch & Hin)|Hfetch]; [left|by right].
  exists batch. rewrite flushes_app. apply elem_of_app. by left.
Qed.

Section OriginFacts.
Variable http : nat -> string -> get_outcome.
Variables (start_id end_id : Z) (append : bool).
Hypothesis Htotal : total_ids start_id end_id ≠ 0%Z.

(** One pass of the loop adds events to the trace and logs at most one
    error: the one its fetch raised, or the one its call of the sink
    raised. *)
Lemma handle_result_logs i res st :
  exists t',
    trace (handle_result start_id end_id append i res st) = trace st ++ t' ∧
    Forall (fun e => (exists batch, (batch, Some e) ∈ flushes t') ∨ res = Raise e)
           (logged t').
Proof.
  unfold handle_result, try_body, flush_batch, report_progress.
  rewrite (proj2 (Z.eqb_neq _ _) Htotal).
  destruct res as [extracted|e]; simpl.
  - assert (exists t0, trace (record_result start_id i extracted st) = trace st ++ t0
                       ∧ logged t0 = []) as (t0 & Ht0 & Hl0).
    { destruct extracted as [[|pair record]|]; simpl; by eexists [_]. }
    destruct (batch_size <=? _).
    + destruct (append_or_create_excel _ _ _) as [d'|e d']; simpl; rewrite Ht0;
        rewrite <-!app_assoc; eexists; (split; [done|]);
        rewrite !logged_app, Hl0; simpl.
      * constructor.
      * constructor; [|constructor]. left. eexists. rewrite !flushes_app. simpl.
        apply elem_of_app. right. apply elem_of_cons. by left.
    + simpl. rewrite Ht0, <-app_assoc. eexists. split; [done|].
      rewrite logged_app, Hl0. constructor.
  - exists [EvErrorInThread e]. split; [done|]. constructor; [|constructor]. by right.
Qed.

Lemma handle_result_origin i n url p st :
  Forall (error_origin http (trace st)) (logged (trace st)) ->
  Forall (error_origin http
            (trace (handle_result start_id end_id append i
                      (crawl_and_extract_data (http n) url) (set_pool p st))))
    (logged (trace (handle_result start_id end_id append i
                      (crawl_and_extract_data (http n) url) (set_pool p st)))).
Proof.
  intros Hlogged.
  destruct (handle_result_logs i (crawl_and_extract_data (http n) url) (set_pool p st))
    as (t' & -> & Hnew).
  simpl. rewrite logged_app. apply Forall_app. split.
  - eapply Forall_impl; [exact Hlogged|]. intros e. apply error_origin_app.
  - eapply Forall_impl; [exact Hnew|]. intros e [(batch & Hin)|Hraise].
    + left. exists batch. rewrite flushes_app. apply elem_of_app. by right.
    + right. by exists n, url.
Qed.

End OriginFacts.

(** X4. Every error the handler of the loop logs was raised by a call of
    the sink made in that pass, which the trace records as failed, or by
    the fetch whose future the pass awaited: appending to the batch or to
    the failure list raises nothing, and the progress line never divides
    by zero, the range being non-empty inside the loop. *)
Theorem logged_errors_origin http start_id end_id append num_threads schedule d out e :
  crawl_kensetsu_databank_range http start_id end_id append num_threads schedule d
    = Some out ->
  e ∈ logged (trace (state_of out)) ->
  error_origin http (trace (state_of out)) e.
Proof.
  unfold crawl_kensetsu_databank_range.
  destruct (ThreadPoolExecutor num_threads); [|by intros [= <-] ?%elem_of_nil].
  destruct (pool_block http start_id end_id append schedule d) as [st0|] eqn:Hblock; [|done].
  intros [= <-].
  assert (exists t', trace (state_of (final_flush append st0)) = trace st0 ++ t'
                     ∧ logged t' = []) as (t' & -> & Ht').
  { unfold final_flush. repeat case_match; simplify_eq; simpl;
      (by exists [] ; rewrite ?app_nil_r) || by eexists [_]. }
  rewrite logged_app, Ht', app_nil_r.
  unfold pool_block in Hblock. rewrite id_range_length in Hblock.
  destruct (Z.to_nat (end_id - start_id + 1)) as [|m] eqn:Hn.
  { simpl in Hblock. injection Hblock as <-. by intros ?%elem_of_nil. }
  assert (total_ids start_id end_id ≠ 0%Z) as Htotal by (unfold total_ids; lia).
  intros He. apply error_origin_app.
  assert (Forall (error_origin http (trace st0)) (logged (trace st0))) as Hall.
  { eapply (loop_fetched_invariant http start_id end_id append
              (fun st => Forall (error_origin http (trace st)) (logged (trace st)))
              ((fun id => BASE_URL +:+ Py.str id) <$> id_range start_id end_id)
              (handle_result_origin http start_id end_id append Htotal)
              _ _ _ []); [| |exact Hblock|].
    - apply (submit_pool_after http _ schedule).
    - rewrite <-Hn, <-id_range_length. apply range_urls_defined.
    - constructor. }
  by apply (proj1 (Forall_forall _ _) Hall).
Qed.

Lemma logged_errors_origin_witness :
  error_origin Sample.steady
    (trace (state_of (default (Returned (initial Sample.failing))
              (crawl_kensetsu_databank_range Sample.steady 1 32 true 1 (seq 0 32)
                                             Sample.failing))))
    OSError.
Proof.
  apply (logged_errors_origin Sample.steady 1 32 true 1 (seq 0 32) Sample.failing).
  - by vm_compute.
  - apply (bool_decide_unpack _). by vm_compute.
Defined.

(** ** Columns *)

(** X21. The table the sink writes never has two columns of the same
    name, provided the table it read had none; its columns are those of
    the table read, in their order, followed by the field names of the
    batch that are new, in the order in which the batch first shows them. *)
Theorem persist_columns data append d d' :
  (forall existing, file d = Some existing -> NoDup (Pandas.columns existing)) ->
  append_or_create_excel data append d = Returned d' ->
  exists table,
    file d' = Some table ∧
    NoDup (Pandas.columns table) ∧
    Pandas.columns table
    = match append, file d with
      | true, Some existing =>
          Pandas.add_columns (Pandas.columns existing)
                             (Pandas.columns (Pandas.of_records data))
      | _, _ => Pandas.columns (Pandas.of_records data)
      end.
Proof.
  intros Hnd. unfold append_or_create_excel.
  destruct append, (file d) as [existing|] eqn:Hfile;
    try (intros [Hd' _]%to_excel_Returned; eexists; split; [exact Hd'|];
         split; [apply of_records_columns_NoDup | done]).
  unfold Pandas.drop_duplicates. destruct (Pandas.empty _).
  - intros [Hd' _]%to_excel_Returned. eexists. split; [exact Hd'|].
    split; [|done]. simpl. apply add_columns_NoDup. by apply Hnd.
  - destruct (decide _); [|done].
    intros [Hd' _]%to_excel_Returned. eexists. split; [exact Hd'|].
    split; [|done]. simpl. apply add_columns_NoDup. by apply Hnd.
Qed.

Lemma persist_columns_witness :
  exists table,
    file {| file := Some {| Pandas.columns := ["a"; "link"];
                            Pandas.rows := [[("a", "2"); ("link", "u2")];
                                            [("a", "3"); ("link", "u1")]] |};
            faults := [] |} = Some table ∧
    NoDup (Pandas.columns table) ∧
    Pandas.columns table
    = Pandas.add_columns ["a"; "link"] (Pandas.columns (Pandas.of_records Sample.batch)).
Proof.
  apply (persist_columns Sample.batch true Sample.used).
  - intros existing [= <-]. apply (bool_decide_unpack _). by vm_compute.
  - by vm_compute.
Defined.
